(** * Clip-boundary and caption-cue engine of [ai_clipper.py]

    A shallow embedding of the transcript heuristics of the [AIAutoClipper]
    class (boundary search, boundary and content scoring, fallback clip
    generation and subtitle-cue packing), with the properties its
    specification states about them.

    Conventions of the embedding:
    - Python floats (times, gaps, ratios) are exact rationals [Q]; the
      comparisons [<], [<=], [>] of the source are the boolean tests
      [Qltb] and [Qleb] below, and [max], [min] and [abs] are written out
      with the argument order of the source.
    - Python ints (scores, configured durations, clip counts) are [Z];
      list positions produced by [enumerate]/[range] over a list are [nat].
    - Transcript text is an ASCII [string]; [str.strip], [str.lower],
      [str.startswith] and [str.endswith] are defined on it.
    - The dict field ['end'] is named [seg_end], since [end] is reserved.
    - A numeric entry field of the interface is the integer its text
      denotes, if any; a function that calls [int(...)] on a field reads it
      with [py_int] and raises [ValueError] where the source does.
      Functions stated for given bounds take the numbers in a [settings]
      record. *)

From Stdlib Require Import QArith Qabs Qminmax ZArith String Ascii Bool List.
From Stdlib Require Import Lia Lqa.
From Stdlib Require Import DecimalString.
Import ListNotations.

(** ** Numbers *)

Module PyNum.

Definition Qleb (x y : Q) : bool := Qle_bool x y.
Definition Qltb (x y : Q) : bool := negb (Qle_bool y x).

(** [max(a, b)] keeps [a] unless [b > a]; [min(a, b)] keeps [a] unless
    [b < a]. *)
Definition py_max (a b : Q) : Q := if Qltb a b then b else a.
Definition py_min (a b : Q) : Q := if Qltb b a then b else a.
Definition py_abs (x : Q) : Q := if Qltb x 0 then - x else x.

End PyNum.

Import PyNum.

(** ** Exceptions *)

(** The exceptions the modelled code can raise: a list subscript out of
    range, a float division by zero, and [int(...)] applied to an entry
    field that does not hold an integer. *)
Inductive exn : Type := IndexError | ZeroDivisionError | ValueError.

Inductive result (A : Type) : Type :=
| Ok (a : A)
| Raise (e : exn).

Arguments Ok {A} a.
Arguments Raise {A} e.

Definition bind {A B : Type} (r : result A) (k : A -> result B) : result B :=
  match r with
  | Ok a => k a
  | Raise e => Raise e
  end.

Notation "x <- e ;; k" := (bind e (fun x => k))
  (at level 61, e at next level, right associativity).

(** ** Lists and ranges *)

Module PyList.

(** [l[i]] with Python's negative subscripts. *)
Definition py_get {A : Type} (l : list A) (i : Z) : result A :=
  let n := Z.of_nat (length l) in
  let pos := if (i <? 0)%Z then (n + i)%Z else i in
  if ((pos <? 0) || (n <=? pos))%Z then Raise IndexError
  else match nth_error l (Z.to_nat pos) with
       | Some a => Ok a
       | None => Raise IndexError
       end.

(** [range(lo, hi)] and [range(hi, lo, -1)]. *)
Definition py_range (lo hi : Z) : list Z :=
  map (fun k => (lo + Z.of_nat k)%Z) (seq 0 (Z.to_nat (hi - lo))).

Definition py_range_down (hi lo : Z) : list Z :=
  map (fun k => (hi - Z.of_nat k)%Z) (seq 0 (Z.to_nat (hi - lo))).

(** [l[:n]]: a negative [n] counts from the end. *)
Definition py_take {A : Type} (n : Z) (l : list A) : list A :=
  if (n <? 0)%Z then firstn (Z.to_nat (Z.of_nat (length l) + n)) l
  else firstn (Z.to_nat n) l.

(** [l[-1]], absent exactly when [l] is empty. *)
Definition py_last {A : Type} (l : list A) : option A :=
  nth_error l (length l - 1).

End PyList.

Import PyList.

(** ** Strings *)

Module PyStr.

Local Open Scope string_scope.

(** The ASCII characters for which [str.isspace] holds. *)
Definition is_space (c : ascii) : bool :=
  let n := nat_of_ascii c in
  ((9 <=? n) && (n <=? 13) || (28 <=? n) && (n <=? 32))%nat.

Fixpoint lstrip (s : string) : string :=
  match s with
  | EmptyString => EmptyString
  | String c rest => if is_space c then lstrip rest else s
  end.

Fixpoint rstrip (s : string) : string :=
  match s with
  | EmptyString => EmptyString
  | String c rest =>
      match rstrip rest with
      | EmptyString => if is_space c then EmptyString else String c EmptyString
      | r => String c r
      end
  end.

Definition strip (s : string) : string := rstrip (lstrip s).

Definition lower_char (c : ascii) : ascii :=
  let n := nat_of_ascii c in
  if ((65 <=? n) && (n <=? 90))%nat then ascii_of_nat (n + 32) else c.

Fixpoint lower (s : string) : string :=
  match s with
  | EmptyString => EmptyString
  | String c rest => String (lower_char c) (lower rest)
  end.

Definition startswith (s p : string) : bool := String.prefix p s.

Definition endswith (s e : string) : bool :=
  let n := String.length s in
  let m := String.length e in
  (m <=? n)%nat && String.eqb (substring (n - m) m s) e.

(** Decimal text of an int, as an f-string prints it. *)
Definition str_of_Z (z : Z) : string := NilZero.string_of_int (Z.to_int z).

(** Rounding of a non-negative rational to the nearest integer, ties to
    even, and the [:.1f] format built on it. *)
Definition round_half_even (q : Q) : Z :=
  let n := Qnum q in
  let d := Zpos (Qden q) in
  let f := (n / d)%Z in
  let r := (n mod d)%Z in
  match (2 * r ?= d)%Z with
  | Lt => f
  | Gt => (f + 1)%Z
  | Eq => if Z.even f then f else (f + 1)%Z
  end.

Definition fmt_1f (q : Q) : string :=
  let t := round_half_even (py_abs q * 10) in
  (if Qltb q 0 then "-" else "")
    ++ str_of_Z (t / 10) ++ "." ++ str_of_Z (t mod 10).

End PyStr.

Import PyStr.

(** ** Transcript segments *)

Record segment : Type := mk_segment {
  seg_start : Q;
  seg_end : Q;
  seg_text : string
}.

(** [self.transcript['segments']]: the transcript of the run. *)
Definition transcript := list segment.

(** ** Subtitle-cue packing: [process_subtitle_segments] *)

Module Subtitles.

Definition min_gap : Q := 2 # 10.
Definition min_duration : Q := 8 # 10.

(** [sorted(segments, key=lambda x: x['start'])]: the stable sort by start
    time.  An element is inserted before the first later element whose key
    is not smaller, so equal keys keep their input order. *)
Fixpoint insert_by_start (s : segment) (l : list segment) : list segment :=
  match l with
  | [] => [s]
  | x :: rest =>
      if Qleb (seg_start s) (seg_start x) then s :: l
      else x :: insert_by_start s rest
  end.

Fixpoint sorted_by_start (l : list segment) : list segment :=
  match l with
  | [] => []
  | s :: rest => insert_by_start s (sorted_by_start rest)
  end.

(** One iteration of the loop body; [next] is [segments[i + 1]] when
    [i < len(segments) - 1].  A [continue] leaves [processed] as it is. *)
Definition process_one (next : option segment) (processed : list segment)
           (s : segment) : list segment :=
  let start_time := seg_start s in
  let end_time := seg_end s in
  let text := seg_text s in
  let end_time :=
    if Qltb (end_time - start_time) min_duration
    then start_time + min_duration else end_time in
  let adjusted_start :=
    match py_last processed with
    | Some prev =>
        let prev_end := seg_end prev in
        if Qltb start_time (prev_end + min_gap) then
          let new_start := prev_end + min_gap in
          if Qltb new_start end_time then Some new_start else None
        else Some start_time
    | None => Some start_time
    end in
  match adjusted_start with
  | None => processed
  | Some start_time =>
      let end_time :=
        match next with
        | Some nxt =>
            let next_start := seg_start nxt in
            if Qltb (next_start - min_gap) end_time then
              let new_end := next_start - min_gap in
              if Qltb (start_time + min_duration) new_end then new_end
              else start_time + min_duration
            else end_time
        | None => end_time
        end in
      processed ++ [mk_segment start_time end_time text]
  end.

Fixpoint process_loop (segments processed : list segment) : list segment :=
  match segments with
  | [] => processed
  | s :: rest => process_loop rest (process_one (hd_error rest) processed s)
  end.

Definition process_subtitle_segments (segments : list segment) : list segment :=
  match segments with
  | [] => []
  | _ :: _ => process_loop (sorted_by_start segments) []
  end.

(** The gap invariant of a cue sequence. *)
Definition gap_invariant (cues : list segment) : Prop :=
  forall i a b,
    nth_error cues i = Some a -> nth_error cues (S i) = Some b ->
    (seg_end a + min_gap <= seg_start b)%Q.

Definition cue_duration (c : segment) : Q := seg_end c - seg_start c.

(** Every cue lasts at least [min_duration] (decidable form). *)
Definition all_min_duration (cues : list segment) : bool :=
  forallb (fun c => Qleb min_duration (cue_duration c)) cues.

End Subtitles.

(** ** Settings read from the user interface

    [int(self.max_clips.get())] and its siblings, already parsed. *)
Record settings : Type := mk_settings {
  max_clips : Z;
  clip_duration : Z;
  smart_duration : bool;
  min_clip_duration : Z;
  max_clip_duration : Z
}.

(** The entry fields as the code finds them.  A numeric field holds the
    integer its text denotes, or [None] when [int(...)] rejects the text;
    [py_int] is the call [int(self.field.get())], made afresh by every
    function that needs the number. *)
Record entry_fields : Type := mk_entries {
  max_clips_field : option Z;
  clip_duration_field : option Z;
  smart_duration_field : bool;
  min_clip_duration_field : option Z;
  max_clip_duration_field : option Z
}.

Definition py_int (field : option Z) : result Z :=
  match field with
  | Some n => Ok n
  | None => Raise ValueError
  end.

(** Entry fields that all hold integers. *)
Definition parsed (cfg : settings) : entry_fields :=
  {| max_clips_field := Some (max_clips cfg);
     clip_duration_field := Some (clip_duration cfg);
     smart_duration_field := smart_duration cfg;
     min_clip_duration_field := Some (min_clip_duration cfg);
     max_clip_duration_field := Some (max_clip_duration cfg) |}.

(** ** Clip candidates

    The dict of one clip.  Keys that a producer may leave out are
    optional fields. *)
Record clip_info : Type := mk_clip {
  start_time : Q;
  end_time : Q;
  title : string;
  reason : string;
  emotion_score : Z;
  content_summary : option string;
  boundary_confidence : option string;
  fallback_generated : option bool;
  original_start : option Q;
  original_end : option Q;
  boundary_improved : option bool
}.

(** ** Boundary search and refinement *)

Module Boundaries.

Local Open Scope string_scope.

Definition good_starters : list string :=
  ["jadi"; "nah"; "oke"; "baik"; "sekarang"; "mari"; "ayo";
   "pertama"; "kedua"; "selanjutnya"; "berikutnya";
   "jadi begini"; "nah begini"; "oke begini";
   "pertama-tama"; "yang pertama"; "yang kedua"].

Definition good_enders : list string :=
  ["jadi"; "nah"; "oke"; "baik"; "begitu"; "demikian";
   "itulah"; "begitulah"; "demikianlah"; "sekian";
   "terima kasih"; "sampai jumpa"; "selamat tinggal";
   "jadi begitulah"; "nah begitulah"; "oke begitulah"].

(** The literals [1.5] and [0.5] of the gap tests. *)
Definition long_pause : Q := 15 # 10.
Definition short_pause : Q := 5 # 10.

(** The marker loops: [text.lower().startswith(starter.lower())] for some
    starter, and likewise with [endswith]. *)
Definition starts_with_marker (text : string) : bool :=
  existsb (fun starter => startswith (lower text) (lower starter)) good_starters.

Definition ends_with_marker (text : string) : bool :=
  existsb (fun ender => endswith (lower text) (lower ender)) good_enders.

Fixpoint find_from (i : Z) (segments : list segment) (time_seconds : Q)
  : option Z :=
  match segments with
  | [] => None
  | segment :: rest =>
      if Qleb (seg_start segment) time_seconds
         && Qleb time_seconds (seg_end segment)
      then Some i
      else find_from (i + 1) rest time_seconds
  end.

Definition find_segment_index (segments : transcript) (time_seconds : Q)
  : option Z :=
  find_from 0 segments time_seconds.

Definition is_good_starting_boundary (segments : transcript)
           (segment : segment) (segment_idx : Z) : result bool :=
  let text := strip (seg_text segment) in
  if starts_with_marker text then Ok true
  else if (0 <? segment_idx)%Z then
    prev_segment <- py_get segments (segment_idx - 1) ;;
    let gap := seg_start segment - seg_end prev_segment in
    if Qltb long_pause gap then Ok true else Ok false
  else Ok false.

Definition is_good_ending_boundary (segments : transcript)
           (segment : segment) (segment_idx : Z) : result bool :=
  let text := strip (seg_text segment) in
  if ends_with_marker text then Ok true
  else if (segment_idx <? Z.of_nat (length segments) - 1)%Z then
    next_segment <- py_get segments (segment_idx + 1) ;;
    let gap := seg_start next_segment - seg_end segment in
    if Qltb long_pause gap then Ok true else Ok false
  else Ok false.

(** The two scanning loops, over the indices their [range] yields. *)
Fixpoint scan_start (segments : transcript) (original_time : Q)
         (idxs : list Z) : result Q :=
  match idxs with
  | [] => Ok original_time
  | i :: rest =>
      segment <- py_get segments i ;;
      good <- is_good_starting_boundary segments segment i ;;
      if good then Ok (seg_start segment)
      else scan_start segments original_time rest
  end.

Fixpoint scan_end (segments : transcript) (original_time : Q)
         (idxs : list Z) : result Q :=
  match idxs with
  | [] => Ok original_time
  | i :: rest =>
      segment <- py_get segments i ;;
      good <- is_good_ending_boundary segments segment i ;;
      if good then Ok (seg_end segment)
      else scan_end segments original_time rest
  end.

Definition find_better_start_boundary (segments : transcript)
           (segment_idx : Z) (original_time : Q) : result Q :=
  if (segment_idx <=? 0)%Z then Ok original_time
  else scan_start segments original_time
         (py_range_down segment_idx (Z.max 0 (segment_idx - 3))).

Definition find_better_end_boundary (segments : transcript)
           (segment_idx : Z) (original_time : Q) : result Q :=
  let n := Z.of_nat (length segments) in
  if (n - 1 <=? segment_idx)%Z then Ok original_time
  else scan_end segments original_time
         (py_range segment_idx (Z.min n (segment_idx + 3))).

(** The loop of [validate_and_improve_boundaries]: a clip whose start or
    end falls in no segment is skipped; the others are copied with the new
    boundaries and the three added keys. *)
Fixpoint improve_clips (segments : transcript) (ai_analysis : list clip_info)
  : result (list clip_info) :=
  match ai_analysis with
  | [] => Ok []
  | clip :: rest =>
      match find_segment_index segments (start_time clip),
            find_segment_index segments (end_time clip) with
      | Some start_segment_idx, Some end_segment_idx =>
          improved_start <-
            find_better_start_boundary segments start_segment_idx
                                       (start_time clip) ;;
          improved_end <-
            find_better_end_boundary segments end_segment_idx
                                     (end_time clip) ;;
          let improved_clip :=
            {| start_time := improved_start;
               end_time := improved_end;
               title := title clip;
               reason := reason clip;
               emotion_score := emotion_score clip;
               content_summary := content_summary clip;
               boundary_confidence := boundary_confidence clip;
               fallback_generated := fallback_generated clip;
               original_start := Some (start_time clip);
               original_end := Some (end_time clip);
               boundary_improved := Some true |} in
          improved_analysis <- improve_clips segments rest ;;
          Ok (improved_clip :: improved_analysis)
      | _, _ => improve_clips segments rest
      end
  end.

Definition validate_and_improve_boundaries (segments : transcript)
           (ai_analysis : list clip_info) : result (list clip_info) :=
  match ai_analysis with
  | [] => Ok ai_analysis
  | _ :: _ => improve_clips segments ai_analysis
  end.

End Boundaries.

(** ** Boundary, content and duration scoring *)

Module Quality.

Import Boundaries.

Local Open Scope string_scope.

(** The dict [{'score': ..., 'reason': ...}]. *)
Record boundary_quality : Type := mk_quality {
  score : Z;
  quality_reason : string
}.

(** The common tail of [assess_boundary_quality]: cap and return. *)
Definition capped (score : Z) (reason : string) : result boundary_quality :=
  Ok {| score := Z.min 10 score; quality_reason := reason |}.

Definition assess_boundary_quality (segments : transcript) (segment_idx : Z)
           (boundary_type : string) : result boundary_quality :=
  if ((segment_idx <? 0) || (Z.of_nat (length segments) <=? segment_idx))%Z
  then Ok {| score := 0; quality_reason := "Invalid segment index" |}
  else
    segment <- py_get segments segment_idx ;;
    let text := strip (seg_text segment) in
    let score := 5%Z in
    if String.eqb boundary_type "start" then
      let score := if starts_with_marker text then (score + 3)%Z else score in
      if (0 <? segment_idx)%Z then
        prev_segment <- py_get segments (segment_idx - 1) ;;
        let gap := seg_start segment - seg_end prev_segment in
        if Qltb long_pause gap then
          capped (score + 2)
                 ("Natural pause " ++ fmt_1f gap ++ "s sebelum start")
        else if Qltb short_pause gap then
          capped (score + 1)
                 ("Small pause " ++ fmt_1f gap ++ "s sebelum start")
        else capped score "Tidak ada pause sebelum start"
      else capped score "Start dari awal video"
    else
      let score := if ends_with_marker text then (score + 3)%Z else score in
      if (segment_idx <? Z.of_nat (length segments) - 1)%Z then
        next_segment <- py_get segments (segment_idx + 1) ;;
        let gap := seg_start next_segment - seg_end segment in
        if Qltb long_pause gap then
          capped (score + 2)
                 ("Natural pause " ++ fmt_1f gap ++ "s setelah end")
        else if Qltb short_pause gap then
          capped (score + 1)
                 ("Small pause " ++ fmt_1f gap ++ "s setelah end")
        else capped score "Tidak ada pause setelah end"
      else capped score "End di akhir video".

(** [text.endswith(('.', '!', '?', ':', ';'))] *)
Definition sentence_ends : list string := ["."; "!"; "?"; ":"; ";"].

Definition ends_sentence (text : string) : bool :=
  existsb (fun e => endswith text e) sentence_ends.

(** The counting loop over [range(start_idx, end_idx + 1)]. *)
Fixpoint count_complete (segments : transcript) (idxs : list Z)
         (complete_sentences : Z) : result Z :=
  match idxs with
  | [] => Ok complete_sentences
  | i :: rest =>
      if (i <? Z.of_nat (length segments))%Z then
        segment <- py_get segments i ;;
        let text := strip (seg_text segment) in
        count_complete segments rest
          (if ends_sentence text then (complete_sentences + 1)%Z
           else complete_sentences)
      else count_complete segments rest complete_sentences
  end.

Definition assess_content_completeness (segments : transcript)
           (start_idx end_idx : Z) : result Q :=
  if (end_idx <=? start_idx)%Z then Ok 0
  else
    let total_segments := (end_idx - start_idx + 1)%Z in
    complete_sentences <-
      count_complete segments (py_range start_idx (end_idx + 1)) 0 ;;
    if (0 <? total_segments)%Z then
      let completeness_ratio :=
        inject_Z complete_sentences / inject_Z total_segments in
      Ok (py_min 10 (completeness_ratio * 10))
    else Ok 0.

Definition assess_duration_appropriateness (cfg : settings) (duration : Q)
  : Q :=
  let min_duration := inject_Z (min_clip_duration cfg) in
  let max_duration := inject_Z (max_clip_duration cfg) in
  if Qltb duration min_duration then
    py_max 0 (10 - (min_duration - duration) * 2)
  else if Qltb max_duration duration then
    py_max 0 (10 - (duration - max_duration) * (5 # 10))
  else
    let optimal_range := (min_duration + max_duration) / 2 in
    let deviation := py_abs (duration - optimal_range) in
    py_max 5 (10 - deviation * (5 # 10)).

End Quality.

(** ** Fallback clip generation *)

Module Fallback.

Local Open Scope string_scope.

(** Float division: [a / b] raises on a zero divisor. *)
Definition py_div (a b : Q) : result Q :=
  if Qeq_bool b 0 then Raise ZeroDivisionError else Ok (a / b).

(** [segments[-1]['end'] if segments else 0] *)
Definition transcript_duration (segments : transcript) : Q :=
  match py_last segments with
  | Some segment => seg_end segment
  | None => 0
  end.

Record break_point : Type := mk_break {
  bp_time : Q;
  bp_gap : Q;
  bp_segment_idx : Z
}.

(** The gaps longer than one second, in transcript order; [i] is the index
    of [segment], and the last segment has no successor. *)
Fixpoint collect_breaks (i : Z) (segments : list segment) : list break_point :=
  match segments with
  | segment :: ((next_segment :: _) as rest) =>
      let gap := seg_start next_segment - seg_end segment in
      if Qltb 1 gap then
        {| bp_time := seg_end segment; bp_gap := gap; bp_segment_idx := i |}
          :: collect_breaks (i + 1) rest
      else collect_breaks (i + 1) rest
  | _ => []
  end.

(** [break_points.sort(key=lambda x: x['gap'], reverse=True)]: stable,
    longest gap first. *)
Fixpoint insert_by_gap (b : break_point) (l : list break_point)
  : list break_point :=
  match l with
  | [] => [b]
  | x :: rest =>
      if Qleb (bp_gap x) (bp_gap b) then b :: l
      else x :: insert_by_gap b rest
  end.

Fixpoint sort_by_gap_desc (l : list break_point) : list break_point :=
  match l with
  | [] => []
  | b :: rest => insert_by_gap b (sort_by_gap_desc rest)
  end.

Fixpoint scan_clip_start (segments : list segment) (target_start : Q)
         (idxs : list Z) : result Q :=
  match idxs with
  | [] => Ok (py_max 0 target_start)
  | i :: rest =>
      segment <- py_get segments i ;;
      if Qleb (seg_start segment) target_start then Ok (seg_start segment)
      else scan_clip_start segments target_start rest
  end.

Definition find_clip_start (segments : list segment) (end_segment_idx : Z)
           (min_duration : Z) : result Q :=
  end_segment <- py_get segments end_segment_idx ;;
  let target_start := seg_end end_segment - inject_Z min_duration in
  scan_clip_start segments target_start (py_range_down end_segment_idx (-1)).

(** The clip-building loop of [find_natural_break_clips]; [i] counts the
    break points taken so far. *)
Fixpoint natural_break_loop (segments : list segment) (min_duration : Z)
         (i : Z) (breaks : list break_point) : result (list clip_info) :=
  match breaks with
  | [] => Ok []
  | break_point :: rest =>
      start_time <-
        find_clip_start segments (bp_segment_idx break_point) min_duration ;;
      let end_time := bp_time break_point in
      clips <- natural_break_loop segments min_duration (i + 1) rest ;;
      if Qleb (inject_Z min_duration) (end_time - start_time) then
        Ok ({| start_time := start_time;
               end_time := end_time;
               title := "Clip " ++ str_of_Z (i + 1) ++ " - Natural Break";
               reason := "Natural break dengan pause "
                           ++ fmt_1f (bp_gap break_point) ++ "s";
               emotion_score := 7;
               content_summary :=
                 Some ("Bagian dengan natural pause "
                         ++ fmt_1f (bp_gap break_point) ++ " detik");
               boundary_confidence := Some "high";
               fallback_generated := Some true;
               original_start := None;
               original_end := None;
               boundary_improved := None |} :: clips)
      else Ok clips
  end.

(** The two bounds are read from their entry fields first; the maximum is
    read and not used. *)
Definition find_natural_break_clips (ui : entry_fields)
           (segments : list segment) (max_clips : Z)
  : result (list clip_info) :=
  min_duration <- py_int (min_clip_duration_field ui) ;;
  max_duration <- py_int (max_clip_duration_field ui) ;;
  let break_points := sort_by_gap_desc (collect_breaks 0 segments) in
  natural_break_loop segments min_duration 0 (py_take max_clips break_points).

(** [min(segments, key=...)]: the first segment with the least key. *)
Fixpoint min_by_key (key : segment -> Q) (best : segment)
         (l : list segment) : segment :=
  match l with
  | [] => best
  | s :: rest =>
      min_by_key key (if Qltb (key s) (key best) then s else best) rest
  end.

Definition adjust_to_segment_boundary (segments : list segment) (time : Q)
           (boundary_type : string) : Q :=
  match segments with
  | [] => time
  | first :: rest =>
      if String.eqb boundary_type "start" then
        seg_start
          (min_by_key (fun s => py_abs (seg_start s - time)) first rest)
      else
        seg_end (min_by_key (fun s => py_abs (seg_end s - time)) first rest)
  end.

Fixpoint fixed_duration_loop (segments : list segment) (total_duration : Q)
         (interval : Q) (target_duration : Z) (idxs : list Z)
  : list clip_info :=
  match idxs with
  | [] => []
  | i :: rest =>
      let start_time := inject_Z i * interval in
      let end_time :=
        py_min (start_time + inject_Z target_duration) total_duration in
      let start_time :=
        adjust_to_segment_boundary segments start_time "start" in
      let end_time := adjust_to_segment_boundary segments end_time "end" in
      let clips :=
        fixed_duration_loop segments total_duration interval
                            target_duration rest in
      if Qltb start_time end_time then
        {| start_time := start_time;
           end_time := end_time;
           title := "Clip " ++ str_of_Z (i + 1) ++ " - Fixed Duration";
           reason := "Fixed duration clip " ++ str_of_Z (i + 1);
           emotion_score := 6;
           content_summary :=
             Some ("Clip dengan durasi tetap "
                     ++ str_of_Z target_duration ++ " detik");
           boundary_confidence := Some "medium";
           fallback_generated := Some true;
           original_start := None;
           original_end := None;
           boundary_improved := None |} :: clips
      else clips
  end.

Definition find_fixed_duration_clips (segments : list segment)
           (max_clips target_duration : Z) : result (list clip_info) :=
  let total_duration := transcript_duration segments in
  if Qeq_bool total_duration 0 then Ok []
  else
    interval <- py_div total_duration (inject_Z max_clips) ;;
    Ok (fixed_duration_loop segments total_duration interval target_duration
                            (py_range 0 max_clips)).

Fixpoint simple_time_loop (total_duration : Q) (max_clips target_duration : Z)
         (idxs : list Z) : result (list clip_info) :=
  match idxs with
  | [] => Ok []
  | i :: rest =>
      share <- py_div total_duration (inject_Z max_clips) ;;
      let start_time := inject_Z i * share in
      let end_time :=
        py_min (start_time + inject_Z target_duration) total_duration in
      clips <- simple_time_loop total_duration max_clips target_duration rest ;;
      Ok ({| start_time := start_time;
             end_time := end_time;
             title := "Clip " ++ str_of_Z (i + 1) ++ " - Time Based";
             reason := "Simple time-based clip " ++ str_of_Z (i + 1);
             emotion_score := 5;
             content_summary :=
               Some "Clip berdasarkan pembagian waktu sederhana";
             boundary_confidence := Some "low";
             fallback_generated := Some true;
             original_start := None;
             original_end := None;
             boundary_improved := None |} :: clips)
  end.

Definition create_simple_time_clips (total_duration : Q)
           (max_clips target_duration : Z) : result (list clip_info) :=
  simple_time_loop total_duration max_clips target_duration
                   (py_range 0 max_clips).

(** The strategies [generate_fallback_clips] can call. *)
Inductive tier : Type := NaturalBreak | FixedInterval | NaiveSplit.

(** [generate_fallback_clips], returning next to its clips the strategies it
    called, in call order.  [self.transcript] is [None] when it is unset or
    has no ['segments'] key.  An exception raised anywhere in the body, a
    [ValueError] of an [int(...)] included, is caught by the [except]
    clause, which returns the empty list. *)
Definition generate_fallback_clips_traced (ui : entry_fields)
           (self_transcript : option transcript)
  : list tier * list clip_info :=
  match self_transcript with
  | None => ([], [])
  | Some segments =>
      let total_duration := transcript_duration segments in
      if Qeq_bool total_duration 0 then ([], [])
      else
        match py_int (max_clips_field ui) with
        | Raise _ => ([], [])
        | Ok max_clips =>
            match (if negb (smart_duration_field ui)
                   then py_int (clip_duration_field ui) else Ok 60%Z) with
            | Raise _ => ([], [])
            | Ok target_duration =>
                let first_tier :=
                  if smart_duration_field ui
                  then NaturalBreak else FixedInterval in
                let fallback_clips :=
                  if smart_duration_field ui
                  then find_natural_break_clips ui segments max_clips
                  else find_fixed_duration_clips segments max_clips
                                                 target_duration in
                match fallback_clips with
                | Raise _ => ([first_tier], [])
                | Ok ((_ :: _) as clips) => ([first_tier], clips)
                | Ok [] =>
                    match create_simple_time_clips total_duration max_clips
                                                   target_duration with
                    | Raise _ => ([first_tier; NaiveSplit], [])
                    | Ok clips => ([first_tier; NaiveSplit], clips)
                    end
                end
            end
        end
  end.

Definition generate_fallback_clips (ui : entry_fields)
           (self_transcript : option transcript) : list clip_info :=
  snd (generate_fallback_clips_traced ui self_transcript).

End Fallback.

(** ** Vocabulary of the statements *)

(** [segment.start <= t <= segment.end] *)
Definition contains_time (segment : segment) (t : Q) : Prop :=
  (seg_start segment <= t)%Q /\ (t <= seg_end segment)%Q.

Definition positive_durations (cues : list segment) : Prop :=
  forall c, In c cues -> (0 < Subtitles.cue_duration c)%Q.

(** The transcript of the specification's examples. *)
Definition example_transcript : transcript :=
  [mk_segment 0 2 "Jadi begini ceritanya.";
   mk_segment (22 # 10) 5 "Sangat menyentuh.";
   mk_segment 7 9 "Akhir cerita."].

(** The positive signals of the boundary search, for the segment at
    index [i]: its trimmed, lower-cased text begins with a start marker, or
    the gap to the segment before it is longer than [long_pause]; and
    symmetrically for an end. *)
Definition start_signal (segments : transcript) (i : Z) (segment : segment)
  : Prop :=
  (exists starter,
      In starter Boundaries.good_starters /\
      startswith (lower (strip (seg_text segment))) starter = true) \/
  (exists prev,
      (0 < i)%Z /\ nth_error segments (Z.to_nat (i - 1)) = Some prev /\
      (Boundaries.long_pause < seg_start segment - seg_end prev)%Q).

Definition end_signal (segments : transcript) (i : Z) (segment : segment)
  : Prop :=
  (exists ender,
      In ender Boundaries.good_enders /\
      endswith (lower (strip (seg_text segment))) ender = true) \/
  (exists next,
      nth_error segments (Z.to_nat (i + 1)) = Some next /\
      (Boundaries.long_pause < seg_start next - seg_end segment)%Q).

(** A candidate is resolved when both of its times fall in a segment. *)
Definition resolved (segments : transcript) (c : clip_info) : bool :=
  match Boundaries.find_segment_index segments (start_time c),
        Boundaries.find_segment_index segments (end_time c) with
  | Some _, Some _ => true
  | _, _ => false
  end.

(** The flag as the specification words it: set exactly when a boundary
    moved. *)
Definition flag_tracks_change (c c' : clip_info) : Prop :=
  boundary_improved c' = Some true <->
  (~ (start_time c' == start_time c)%Q \/ ~ (end_time c' == end_time c)%Q).

(** What the refinement does to one resolved candidate [c], giving [c']. *)
Definition refined_from (segments : transcript) (c c' : clip_info) : Prop :=
  exists start_idx end_idx,
    Boundaries.find_segment_index segments (start_time c) = Some start_idx /\
    Boundaries.find_segment_index segments (end_time c) = Some end_idx /\
    Boundaries.find_better_start_boundary segments start_idx (start_time c)
      = Ok (start_time c') /\
    Boundaries.find_better_end_boundary segments end_idx (end_time c)
      = Ok (end_time c') /\
    original_start c' = Some (start_time c) /\
    original_end c' = Some (end_time c) /\
    boundary_improved c' = Some true /\
    title c' = title c /\ reason c' = reason c /\
    emotion_score c' = emotion_score c.

(** A candidate on the example transcript: it starts inside the first
    segment and ends inside the last one. *)
Definition example_candidate : clip_info :=
  {| start_time := 19 # 10;
     end_time := 8;
     title := "Cerita";
     reason := "Momen emosional";
     emotion_score := 8;
     content_summary := None;
     boundary_confidence := None;
     fallback_generated := None;
     original_start := None;
     original_end := None;
     boundary_improved := None |}.

(** The terms of the boundary score as the specification words them.  The
    marker bonus is 3 when the trimmed, lower-cased text matches a marker of
    the boundary's kind, and 0 otherwise. *)
Definition marker_match (boundary_type : string) (segment : segment) : Prop :=
  if String.eqb boundary_type "start" then
    exists starter,
      In starter Boundaries.good_starters /\
      startswith (lower (strip (seg_text segment))) starter = true
  else
    exists ender,
      In ender Boundaries.good_enders /\
      endswith (lower (strip (seg_text segment))) ender = true.

Definition marker_bonus_is (boundary_type : string) (segment : segment)
           (m : Z) : Prop :=
  (m = 3%Z /\ marker_match boundary_type segment) \/
  (m = 0%Z /\ ~ marker_match boundary_type segment).

(** The gap next to a boundary: before the segment for a start, after it
    for an end; none at the edge of the transcript. *)
Definition adjacent_gap (segments : transcript) (idx : Z)
           (boundary_type : string) : option Q :=
  match nth_error segments (Z.to_nat idx) with
  | None => None
  | Some segment =>
      if String.eqb boundary_type "start" then
        if (0 <? idx)%Z then
          match nth_error segments (Z.to_nat (idx - 1)) with
          | Some prev => Some (seg_start segment - seg_end prev)%Q
          | None => None
          end
        else None
      else
        match nth_error segments (Z.to_nat (idx + 1)) with
        | Some next => Some (seg_start next - seg_end segment)%Q
        | None => None
        end
  end.

Definition pause_bonus_is (gap : option Q) (p : Z) : Prop :=
  match gap with
  | None => p = 0%Z
  | Some g =>
      (p = 2%Z /\ (Boundaries.long_pause < g)%Q) \/
      (p = 1%Z /\ (Boundaries.short_pause < g)%Q
               /\ (g <= Boundaries.long_pause)%Q) \/
      (p = 0%Z /\ (g <= Boundaries.short_pause)%Q)
  end.

(** The settings the interface starts with. *)
Definition default_settings : settings :=
  {| max_clips := 5;
     clip_duration := 60;
     smart_duration := false;
     min_clip_duration := 20;
     max_clip_duration := 180 |}.

(** The content score as the specification words it: [k] counts the
    segments of the inclusive range whose trimmed text ends a sentence, [n]
    is the size of the range, and the score is [min(10, 10 * k / n)]. *)
Definition segments_in_range (segments : transcript) (start_idx end_idx : Z)
  : list segment :=
  firstn (Z.to_nat (end_idx - start_idx + 1))
         (skipn (Z.to_nat start_idx) segments).

Definition complete_in_range (segments : transcript) (start_idx end_idx : Z)
  : Z :=
  Z.of_nat
    (length (filter (fun s => Quality.ends_sentence (strip (seg_text s)))
                    (segments_in_range segments start_idx end_idx))).

Definition completeness_formula (segments : transcript)
           (start_idx end_idx : Z) : Q :=
  Qmin 10 (10 * inject_Z (complete_in_range segments start_idx end_idx)
           / inject_Z (end_idx - start_idx + 1)).

(** The strategy [generate_fallback_clips] starts with, the target
    duration it reads, and the call it makes for each strategy once the clip
    count and the target duration are read. *)
Definition chosen_tier (ui : entry_fields) : Fallback.tier :=
  if smart_duration_field ui
  then Fallback.NaturalBreak else Fallback.FixedInterval.

Definition target_duration (ui : entry_fields) : result Z :=
  if negb (smart_duration_field ui)
  then py_int (clip_duration_field ui) else Ok 60%Z.

Definition run_tier (ui : entry_fields) (segments : transcript)
           (max_clips target : Z) (t : Fallback.tier)
  : result (list clip_info) :=
  match t with
  | Fallback.NaturalBreak =>
      Fallback.find_natural_break_clips ui segments max_clips
  | Fallback.FixedInterval =>
      Fallback.find_fixed_duration_clips segments max_clips target
  | Fallback.NaiveSplit =>
      Fallback.create_simple_time_clips
        (Fallback.transcript_duration segments) max_clips target
  end.

(** The interface's settings with smart duration switched on. *)
Definition smart_settings : settings :=
  {| max_clips := 5;
     clip_duration := 60;
     smart_duration := true;
     min_clip_duration := 20;
     max_clip_duration := 180 |}.

(** Two overlapping segments: the second starts while the first is still
    shown, and ends before it. *)
Definition overlapping_segments : list segment :=
  [mk_segment 0 2 "Halo semua"; mk_segment (5 # 10) (15 # 10) "apa kabar"].

(** ** Further vocabulary: cue sequences *)

(** A segment list on which none of the tests of
    [process_subtitle_segments] fires, each test written as the loop
    evaluates it: the segments are in non-decreasing start order, no segment
    has [end - start < min_duration], none starts before
    [previous end + min_gap], and none ends after [next start - min_gap]. *)
Fixpoint well_spaced (l : list segment) : Prop :=
  match l with
  | [] => True
  | a :: rest =>
      Qltb (seg_end a - seg_start a) Subtitles.min_duration = false /\
      match rest with
      | [] => True
      | b :: _ =>
          Qleb (seg_start a) (seg_start b) = true /\
          Qltb (seg_start b) (seg_end a + Subtitles.min_gap) = false /\
          Qltb (seg_start b - Subtitles.min_gap) (seg_end a) = false
      end /\
      well_spaced rest
  end.

(** A cue comes from a segment when it shows the segment's text and does
    not start before it. *)
Definition cue_of (c s : segment) : Prop :=
  seg_text c = seg_text s /\ (seg_start s <= seg_start c)%Q.

(** ** Further vocabulary: ordered transcripts *)

(** The keys of neighbouring segments never decrease. *)
Fixpoint nondecreasing (key : segment -> Q) (l : list segment) : Prop :=
  match l with
  | a :: rest =>
      match rest with
      | b :: _ => (key a <= key b)%Q
      | [] => True
      end /\ nondecreasing key rest
  | [] => True
  end.

(** A refined clip covers the candidate it was made from. *)
Definition covers_original (c' : clip_info) : Prop :=
  exists os oe,
    original_start c' = Some os /\ original_end c' = Some oe /\
    (start_time c' <= os)%Q /\ (oe <= end_time c')%Q.

(** A candidate inside the second segment of the example transcript, and
    the clip the refinement makes of it: the end moves out to the end of
    the segment, which is followed by a pause of two seconds. *)
Definition inner_candidate : clip_info :=
  {| start_time := 3;
     end_time := 45 # 10;
     title := "Cerita";
     reason := "Momen emosional";
     emotion_score := 8;
     content_summary := None;
     boundary_confidence := None;
     fallback_generated := None;
     original_start := None;
     original_end := None;
     boundary_improved := None |}.

Definition widened_candidate : clip_info :=
  {| start_time := 3;
     end_time := 5;
     title := "Cerita";
     reason := "Momen emosional";
     emotion_score := 8;
     content_summary := None;
     boundary_confidence := None;
     fallback_generated := None;
     original_start := Some 3%Q;
     original_end := Some (45 # 10)%Q;
     boundary_improved := Some true |}.

(** ** Overall clip quality: [get_clip_quality_score] *)

Module Aggregate.

Import Boundaries Quality.

(** [round(x, 1)]: to the nearest tenth, ties to the even tenth. *)
Definition py_round1 (x : Q) : Q :=
  inject_Z (round_half_even (x * 10)) / 10.

(** The settings as far as [assess_duration_appropriateness] reads
    them. *)
Definition bounds_only (min_duration max_duration : Z) : settings :=
  {| max_clips := 0;
     clip_duration := 0;
     smart_duration := false;
     min_clip_duration := min_duration;
     max_clip_duration := max_duration |}.

(** [assess_duration_appropriateness] with its two reads of the entry
    fields, either of which can raise. *)
Definition assess_duration_appropriateness_read (ui : entry_fields)
           (duration : Q) : result Q :=
  min_duration <- py_int (min_clip_duration_field ui) ;;
  max_duration <- py_int (max_clip_duration_field ui) ;;
  Ok (assess_duration_appropriateness (bounds_only min_duration max_duration)
                                      duration).

(** [self.transcript] is [None] when it is unset or has no ['segments']
    key.  Nothing is caught here: an exception of a callee is raised to the
    caller. *)
Definition get_clip_quality_score (ui : entry_fields)
           (self_transcript : option transcript) (clip : clip_info)
  : result Q :=
  match self_transcript with
  | None => Ok 0
  | Some segments =>
      match find_segment_index segments (start_time clip),
            find_segment_index segments (end_time clip) with
      | Some start_segment_idx, Some end_segment_idx =>
          start_quality <-
            assess_boundary_quality segments start_segment_idx "start" ;;
          end_quality <-
            assess_boundary_quality segments end_segment_idx "end" ;;
          content_score <-
            assess_content_completeness segments start_segment_idx
                                        end_segment_idx ;;
          duration_score <-
            assess_duration_appropriateness_read
              ui (end_time clip - start_time clip) ;;
          let overall_score :=
            inject_Z (score start_quality) * (3 # 10)
            + inject_Z (score end_quality) * (3 # 10)
            + content_score * (3 # 10)
            + duration_score * (1 # 10) in
          Ok (py_round1 overall_score)
      | _, _ => Ok 0
      end
  end.

End Aggregate.

(** ** Further vocabulary: fallback clips *)

(** The marks every fallback strategy puts on its clips: a fixed emotion
    score and confidence label, the fallback flag, and no refinement
    keys. *)
Definition fallback_marks (emotion : Z) (confidence : string)
           (c : clip_info) : Prop :=
  emotion_score c = emotion /\
  boundary_confidence c = Some confidence /\
  fallback_generated c = Some true /\
  original_start c = None /\ original_end c = None /\
  boundary_improved c = None.

(** A clip lies inside [0, total] and is not degenerate. *)
Definition inside_window (total : Q) (c : clip_info) : Prop :=
  (0 <= start_time c)%Q /\ (start_time c < end_time c)%Q /\
  (end_time c <= total)%Q.

(** The end of a clip is a natural break of the transcript: the end of a
    segment followed by a pause of more than one second. *)
Definition ends_at_break (segments : list segment) (c : clip_info) : Prop :=
  exists i s next,
    nth_error segments i = Some s /\
    nth_error segments (S i) = Some next /\
    end_time c = seg_end s /\
    (1 < seg_start next - seg_end s)%Q.

(** [|x - t|] with the source's [abs]. *)
Definition distance (x t : Q) : Q := py_abs (x - t).

(** What every fallback clip has in common, whichever strategy made it. *)
Definition fallback_clip (c : clip_info) : Prop :=
  fallback_generated c = Some true /\
  boundary_improved c = None /\
  (5 <= emotion_score c <= 7)%Z.

(** Every entry field that [generate_fallback_clips] and the strategy it
    chooses read holds an integer: the clip count, and then the minimum and
    maximum duration with smart duration on, the clip duration with it
    off. *)
Definition fields_readable (ui : entry_fields) : Prop :=
  max_clips_field ui <> None /\
  if smart_duration_field ui
  then min_clip_duration_field ui <> None /\
       max_clip_duration_field ui <> None
  else clip_duration_field ui <> None.

(** * Properties *)

(** ** Comparisons, [max], [min] and [abs] *)

Lemma Qleb_le (x y : Q) : Qleb x y = true <-> (x <= y)%Q.
Proof. apply Qle_bool_iff. Qed.

Lemma Qltb_lt (x y : Q) : Qltb x y = true <-> (x < y)%Q.
Proof.
  unfold Qltb. rewrite negb_true_iff. split; intro H.
  - apply Qnot_le_lt. intro Hle. apply Qle_bool_iff in Hle. congruence.
  - destruct (Qle_bool y x) eqn:E; [|reflexivity].
    apply Qle_bool_iff in E. exfalso. apply (Qlt_not_le _ _ H E).
Qed.

Lemma Qltb_ge (x y : Q) : Qltb x y = false <-> (y <= x)%Q.
Proof.
  unfold Qltb. rewrite negb_false_iff. apply Qle_bool_iff.
Qed.

Lemma Qleb_gt (x y : Q) : Qleb x y = false <-> (y < x)%Q.
Proof.
  unfold Qleb. rewrite <- (Qltb_lt y x). unfold Qltb.
  destruct (Qle_bool x y); simpl; split; congruence.
Qed.

Lemma py_max_spec (a b : Q) :
  ((a < b)%Q /\ py_max a b = b) \/ ((b <= a)%Q /\ py_max a b = a).
Proof.
  unfold py_max. destruct (Qltb a b) eqn:E.
  - left. split; [now apply Qltb_lt | reflexivity].
  - right. split; [now apply Qltb_ge | reflexivity].
Qed.

Lemma py_min_spec (a b : Q) :
  ((b < a)%Q /\ py_min a b = b) \/ ((a <= b)%Q /\ py_min a b = a).
Proof.
  unfold py_min. destruct (Qltb b a) eqn:E.
  - left. split; [now apply Qltb_lt | reflexivity].
  - right. split; [now apply Qltb_ge | reflexivity].
Qed.

Lemma py_abs_spec (x : Q) :
  ((x < 0)%Q /\ py_abs x = (- x)%Q) \/ ((0 <= x)%Q /\ py_abs x = x).
Proof.
  unfold py_abs. destruct (Qltb x 0) eqn:E.
  - left. split; [now apply Qltb_lt | reflexivity].
  - right. split; [now apply Qltb_ge | reflexivity].
Qed.


(** Division by the constants of the source, in the form [lra] reads. *)
Ltac qdiv :=
  unfold Qdiv in *;
  change (/ 2)%Q with (1 # 2)%Q in *;
  change (/ 4)%Q with (1 # 4)%Q in *.

Ltac qcases :=
  repeat match goal with
  | H : Qltb _ _ = true |- _ => apply Qltb_lt in H
  | H : Qltb _ _ = false |- _ => apply Qltb_ge in H
  | H : Qleb _ _ = true |- _ => apply Qleb_le in H
  | H : Qleb _ _ = false |- _ => apply Qleb_gt in H
  end.


(** ** Lists *)

Lemma py_last_snoc (A : Type) (l : list A) (x : A) :
  py_last (l ++ [x]) = Some x.
Proof.
  unfold py_last. rewrite length_app. simpl.
  replace (length l + 1 - 1)%nat with (length l) by lia.
  rewrite nth_error_app2 by lia.
  now rewrite Nat.sub_diag.
Qed.

Lemma py_last_nil (A : Type) : py_last (@nil A) = None.
Proof. reflexivity. Qed.

(** ** Subtitle cues *)

Section GapInvariant.

Import Subtitles.

Lemma gap_invariant_nil : gap_invariant [].
Proof. intros i a b H. destruct i; discriminate. Qed.

Lemma gap_invariant_snoc (l : list segment) (c : segment) :
  gap_invariant l ->
  (forall p, py_last l = Some p -> (seg_end p + min_gap <= seg_start c)%Q) ->
  gap_invariant (l ++ [c]).
Proof.
  intros Hl Hlast i a b Ha Hb.
  destruct (Nat.lt_ge_cases (S i) (length l)) as [Hin | Hout].
  - rewrite nth_error_app1 in Ha by lia.
    rewrite nth_error_app1 in Hb by lia.
    exact (Hl i a b Ha Hb).
  - assert (Hlen : S i = length l).
    { assert (Hb' : (S i < length (l ++ [c]))%nat)
        by (apply nth_error_Some; congruence).
      rewrite length_app in Hb'. simpl in Hb'. lia. }
    rewrite nth_error_app1 in Ha by lia.
    rewrite nth_error_app2 in Hb by lia.
    rewrite Hlen, Nat.sub_diag in Hb. injection Hb as <-.
    apply Hlast. unfold py_last. rewrite <- Hlen. simpl.
    now rewrite Nat.sub_0_r.
Qed.

(** One loop iteration keeps the invariant: an appended cue starts at
    least [min_gap] after the end of [processed[-1]]. *)
Lemma process_one_gap (next : option segment) (processed : list segment)
      (s : segment) :
  gap_invariant processed -> gap_invariant (process_one next processed s).
Proof.
  intro Hinv. unfold process_one.
  destruct (py_last processed) as [prev|] eqn:Hlast.
  - destruct (Qltb (seg_start s) (seg_end prev + min_gap)) eqn:Hov.
    + match goal with |- context [Qltb (seg_end prev + min_gap) ?e] =>
        destruct (Qltb (seg_end prev + min_gap) e) eqn:Hfit end.
      * apply gap_invariant_snoc; [exact Hinv|].
        intros p Hp. rewrite Hlast in Hp. injection Hp as <-. simpl.
        apply Qle_refl.
      * exact Hinv.
    + apply gap_invariant_snoc; [exact Hinv|].
      intros p Hp. rewrite Hlast in Hp. injection Hp as <-. simpl.
      now apply Qltb_ge.
  - apply gap_invariant_snoc; [exact Hinv|].
    intros p Hp. congruence.
Qed.

Lemma process_loop_gap (segments : list segment) :
  forall processed,
    gap_invariant processed -> gap_invariant (process_loop segments processed).
Proof.
  induction segments as [|s rest IH]; intros processed Hinv; simpl.
  - exact Hinv.
  - apply IH. now apply process_one_gap.
Qed.

End GapInvariant.

(** C1. For every input segment list, consecutive cues returned by
    [process_subtitle_segments] are at least [min_gap] = 0.2 apart:
    [cue[i].end + 0.2 <= cue[i+1].start]. *)
Theorem process_subtitle_segments_gap (segments : list segment) :
  forall i a b,
    nth_error (Subtitles.process_subtitle_segments segments) i = Some a ->
    nth_error (Subtitles.process_subtitle_segments segments) (S i) = Some b ->
    (seg_end a + (2 # 10) <= seg_start b)%Q.
Proof.
  assert (H : Subtitles.gap_invariant
                (Subtitles.process_subtitle_segments segments)).
  { unfold Subtitles.process_subtitle_segments.
    destruct segments as [|s rest].
    - apply gap_invariant_nil.
    - apply process_loop_gap, gap_invariant_nil. }
  exact H.
Qed.

(** The invariant at work on the overlapping pair, whose second cue had its
    start pushed forward. *)
Lemma process_subtitle_segments_gap_witness :
  exists a b,
    nth_error (Subtitles.process_subtitle_segments overlapping_segments) 0
    = Some a /\
    nth_error (Subtitles.process_subtitle_segments overlapping_segments) 1
    = Some b /\
    (seg_end a + (2 # 10) <= seg_start b)%Q.
Proof.
  eexists _, _. split; [reflexivity|]. split; [reflexivity|].
  apply (process_subtitle_segments_gap overlapping_segments 0); reflexivity.
Defined.

Section CueDurations.

Import Subtitles.

Local Open Scope Q_scope.

(** What the loop does guarantee about durations: a cue that is kept never
    ends before or when it starts. *)
Lemma process_one_positive (next : option segment) (processed : list segment)
      (s : segment) :
  positive_durations processed ->
  positive_durations (process_one next processed s).
Proof.
  intros Hpos c Hc. unfold process_one in Hc.
  assert (Hsnoc : forall st en,
             0 < en - st ->
             In c (processed ++ [mk_segment st en (seg_text s)]) ->
             0 < cue_duration c).
  { intros st en Hd Hin. apply in_app_or in Hin as [Hin | [<- | []]].
    - now apply Hpos.
    - exact Hd. }
  unfold min_duration, min_gap in *.
  destruct (py_last processed) as [prev|];
    repeat match type of Hc with
           | context [if ?x then _ else _] => destruct x eqn:?
           end;
    destruct next as [nxt|];
    repeat match type of Hc with
           | context [if ?x then _ else _] => destruct x eqn:?
           end;
    try (now apply Hpos);
    (eapply Hsnoc; [|exact Hc]); qcases; lra.
Qed.

Lemma process_loop_positive (segments : list segment) :
  forall processed,
    positive_durations processed ->
    positive_durations (process_loop segments processed).
Proof.
  induction segments as [|s rest IH]; intros processed Hpos; simpl.
  - exact Hpos.
  - apply IH. now apply process_one_positive.
Qed.

Lemma process_subtitle_segments_positive (segments : list segment) :
  positive_durations (process_subtitle_segments segments).
Proof.
  unfold process_subtitle_segments. destruct segments.
  - intros c [].
  - apply process_loop_positive. intros c [].
Qed.

End CueDurations.

(** C2 (the code falls short of it). Two overlapping segments, [0 .. 2] and
    [0.5 .. 1.5]: the first cue is cut back to [0 .. 0.8]; the second has its
    start pushed to [1.0] to restore the gap, keeps its end [1.5], and is
    emitted with a duration of [0.5], below the minimum of [0.8]. *)
Theorem process_subtitle_segments_short_cue :
  let cues := Subtitles.process_subtitle_segments overlapping_segments in
  length cues = 2%nat /\
  Subtitles.all_min_duration cues = false /\
  exists c, nth_error cues 1 = Some c /\
            (seg_start c == 1)%Q /\ (seg_end c == 15 # 10)%Q /\
            (Subtitles.cue_duration c < 8 # 10)%Q.
Proof.
  cbv zeta. split; [reflexivity|]. split; [reflexivity|].
  eexists. split; [reflexivity|].
  repeat split; reflexivity.
Qed.

(** ** Segment lookup *)

Section SegmentLookup.

Import Boundaries.

Lemma contains_time_test (segment : segment) (t : Q) :
  Qleb (seg_start segment) t && Qleb t (seg_end segment) = true
  <-> contains_time segment t.
Proof.
  unfold contains_time. rewrite andb_true_iff, !Qleb_le. tauto.
Qed.

(** The search from position [i0]: a hit is the first segment of the rest
    that contains [t], counted from [i0]; a miss means none does. *)
Lemma find_from_spec (segments : list segment) (t : Q) :
  forall i0 : Z,
    match find_from i0 segments t with
    | Some i =>
        (i0 <= i < i0 + Z.of_nat (length segments))%Z /\
        (exists segment,
            nth_error segments (Z.to_nat (i - i0)) = Some segment /\
            contains_time segment t) /\
        (forall j earlier,
            (j < Z.to_nat (i - i0))%nat ->
            nth_error segments j = Some earlier ->
            ~ contains_time earlier t)
    | None => forall segment, In segment segments -> ~ contains_time segment t
    end.
Proof.
  induction segments as [|s rest IH]; intro i0; simpl.
  - intros segment [].
  - destruct (Qleb (seg_start s) t && Qleb t (seg_end s)) eqn:Hhit.
    + split; [lia|]. rewrite Z.sub_diag. simpl. split.
      * exists s. split; [reflexivity|]. now apply contains_time_test.
      * intros j earlier Hj. lia.
    + assert (Hmiss : ~ contains_time s t).
      { intro Hc. apply contains_time_test in Hc. congruence. }
      specialize (IH (i0 + 1)%Z).
      destruct (find_from (i0 + 1) rest t) as [i|].
      * destruct IH as (Hrange & (segment & Hnth & Hin) & Hfirst).
        replace (Z.to_nat (i - i0)) with (S (Z.to_nat (i - (i0 + 1)))) by lia.
        split; [lia|]. split.
        -- exists segment. split; assumption.
        -- intros [|j] earlier Hj Hnth'; simpl in Hnth'.
           ++ injection Hnth' as <-. exact Hmiss.
           ++ apply (Hfirst j); [lia | exact Hnth'].
      * intros segment [<- | Hin]; [exact Hmiss | now apply IH].
Qed.

End SegmentLookup.

(** C7. For every transcript and query time [t], [find_segment_index]
    returns either an index [i] with [0 <= i < len(segments)] whose segment
    satisfies [start <= t <= end] (the first such segment), or [None], and
    then no segment of the transcript contains [t].  An index outside the
    transcript is never returned. *)
Theorem find_segment_index_sound (segments : transcript) (t : Q) :
  match Boundaries.find_segment_index segments t with
  | Some i =>
      (0 <= i < Z.of_nat (length segments))%Z /\
      (exists segment,
          nth_error segments (Z.to_nat i) = Some segment /\
          (seg_start segment <= t)%Q /\ (t <= seg_end segment)%Q) /\
      (forall j earlier,
          (j < Z.to_nat i)%nat -> nth_error segments j = Some earlier ->
          ~ ((seg_start earlier <= t)%Q /\ (t <= seg_end earlier)%Q))
  | None =>
      forall segment,
        In segment segments ->
        ~ ((seg_start segment <= t)%Q /\ (t <= seg_end segment)%Q)
  end.
Proof.
  unfold Boundaries.find_segment_index.
  pose proof (find_from_spec segments t 0) as H.
  destruct (Boundaries.find_from 0 segments t) as [i|]; [|exact H].
  rewrite Z.sub_0_r in H. exact H.
Qed.

(** ** Subscripts and ranges *)

Lemma py_get_in_range (A : Type) (l : list A) (i : Z) :
  (0 <= i < Z.of_nat (length l))%Z ->
  exists a, py_get l i = Ok a /\ nth_error l (Z.to_nat i) = Some a.
Proof.
  intro Hi. unfold py_get.
  destruct (Z.ltb_spec i 0) as [Hneg|_]; [lia|].
  destruct (Z.ltb_spec i 0) as [Hneg|_]; [lia|].
  destruct (Z.leb_spec (Z.of_nat (length l)) i) as [Hbig|_]; [lia|].
  simpl. destruct (nth_error l (Z.to_nat i)) as [a|] eqn:Hnth.
  - now exists a.
  - apply nth_error_None in Hnth. lia.
Qed.

Lemma in_py_range (lo hi i : Z) :
  In i (py_range lo hi) <-> (lo <= i < hi)%Z.
Proof.
  unfold py_range. rewrite in_map_iff. split.
  - intros (k & <- & Hk). apply in_seq in Hk. lia.
  - intro Hi. exists (Z.to_nat (i - lo)). split; [lia|].
    apply in_seq. lia.
Qed.

Lemma in_py_range_down (hi lo i : Z) :
  In i (py_range_down hi lo) <-> (lo < i <= hi)%Z.
Proof.
  unfold py_range_down. rewrite in_map_iff. split.
  - intros (k & <- & Hk). apply in_seq in Hk. lia.
  - intro Hi. exists (Z.to_nat (hi - i)). split; [lia|].
    apply in_seq. lia.
Qed.

(** ** Boundary search *)

Section BoundarySearch.

Import Boundaries.

Variable segments : transcript.

Let n := Z.of_nat (length segments).

(** The markers are written in lower case already. *)
Lemma good_starters_lower : Forall (fun m => lower m = m) good_starters.
Proof. repeat constructor. Qed.

Lemma good_enders_lower : Forall (fun m => lower m = m) good_enders.
Proof. repeat constructor. Qed.

Lemma starts_with_marker_true (text : string) :
  starts_with_marker text = true <->
  exists starter,
    In starter good_starters /\ startswith (lower text) starter = true.
Proof.
  unfold starts_with_marker. rewrite existsb_exists.
  pose proof (proj1 (Forall_forall _ _) good_starters_lower) as Hlow.
  split; intros (m & Hin & Hm); exists m; split; trivial.
  - now rewrite (Hlow m Hin) in Hm.
  - now rewrite (Hlow m Hin).
Qed.

Lemma ends_with_marker_true (text : string) :
  ends_with_marker text = true <->
  exists ender,
    In ender good_enders /\ endswith (lower text) ender = true.
Proof.
  unfold ends_with_marker. rewrite existsb_exists.
  pose proof (proj1 (Forall_forall _ _) good_enders_lower) as Hlow.
  split; intros (m & Hin & Hm); exists m; split; trivial.
  - now rewrite (Hlow m Hin) in Hm.
  - now rewrite (Hlow m Hin).
Qed.

(** The two predicates decide the signals, and raise nothing on an index
    of the transcript. *)
Lemma is_good_starting_boundary_spec (i : Z) (segment : segment) :
  (0 <= i < n)%Z ->
  exists good,
    is_good_starting_boundary segments segment i = Ok good /\
    (good = true <-> start_signal segments i segment).
Proof.
  intro Hi. unfold is_good_starting_boundary, start_signal.
  destruct (starts_with_marker (strip (seg_text segment))) eqn:Hm.
  - exists true. split; [reflexivity|]. split; [|reflexivity].
    intros _. left. now apply starts_with_marker_true.
  - assert (Hno : ~ exists starter,
                 In starter good_starters /\
                 startswith (lower (strip (seg_text segment))) starter = true).
    { intro H. apply starts_with_marker_true in H. congruence. }
    destruct (Z.ltb_spec 0 i) as [Hpos|Hzero].
    + destruct (@py_get_in_range _ segments (i - 1)) as (prev & -> & Hnth);
        [subst n; lia|]. simpl.
      destruct (Qltb long_pause (seg_start segment - seg_end prev)) eqn:Hgap.
      * exists true. split; [reflexivity|]. split; [|reflexivity].
        intros _. right. exists prev. qcases. auto.
      * exists false. split; [reflexivity|]. split; [discriminate|].
        intros [H | (prev' & _ & Hnth' & Hlt)]; [contradiction|].
        rewrite Hnth in Hnth'. injection Hnth' as <-.
        qcases. exfalso. apply (Qlt_not_le _ _ Hlt Hgap).
    + exists false. split; [reflexivity|]. split; [discriminate|].
      intros [H | (prev' & Hpos & _)]; [contradiction | lia].
Qed.

Lemma is_good_ending_boundary_spec (i : Z) (segment : segment) :
  (0 <= i < n)%Z ->
  exists good,
    is_good_ending_boundary segments segment i = Ok good /\
    (good = true <-> end_signal segments i segment).
Proof.
  intro Hi. unfold is_good_ending_boundary, end_signal.
  destruct (ends_with_marker (strip (seg_text segment))) eqn:Hm.
  - exists true. split; [reflexivity|]. split; [|reflexivity].
    intros _. left. now apply ends_with_marker_true.
  - assert (Hno : ~ exists ender,
                 In ender good_enders /\
                 endswith (lower (strip (seg_text segment))) ender = true).
    { intro H. apply ends_with_marker_true in H. congruence. }
    fold n. destruct (Z.ltb_spec i (n - 1)) as [Hin|Hlast].
    + destruct (@py_get_in_range _ segments (i + 1)) as (next & -> & Hnth);
        [subst n; lia|]. simpl.
      destruct (Qltb long_pause (seg_start next - seg_end segment)) eqn:Hgap.
      * exists true. split; [reflexivity|]. split; [|reflexivity].
        intros _. right. exists next. qcases. auto.
      * exists false. split; [reflexivity|]. split; [discriminate|].
        intros [H | (next' & Hnth' & Hlt)]; [contradiction|].
        rewrite Hnth in Hnth'. injection Hnth' as <-.
        qcases. exfalso. apply (Qlt_not_le _ _ Hlt Hgap).
    + exists false. split; [reflexivity|]. split; [discriminate|].
      intros [H | (next' & Hnth' & _)]; [contradiction|].
      assert (Z.to_nat (i + 1) < length segments)%nat
        by (apply nth_error_Some; congruence).
      subst n. lia.
Qed.

(** A scan over indices of the transcript returns the boundary of the
    first index that carries a signal, or the original time when none
    does. *)
Lemma scan_start_spec (t : Q) (idxs : list Z) :
  (forall i, In i idxs -> (0 <= i < n)%Z) ->
  exists r,
    scan_start segments t idxs = Ok r /\
    ((r = t /\
      forall i segment,
        In i idxs -> nth_error segments (Z.to_nat i) = Some segment ->
        ~ start_signal segments i segment) \/
     (exists i segment,
         In i idxs /\ nth_error segments (Z.to_nat i) = Some segment /\
         r = seg_start segment /\ start_signal segments i segment)).
Proof.
  induction idxs as [|i rest IH]; intro Hin; simpl.
  - exists t. split; [reflexivity|]. left. split; [reflexivity|].
    intros i segment [].
  - destruct (@py_get_in_range _ segments i) as (segment & -> & Hnth);
      [apply Hin; now left|]. simpl.
    destruct (@is_good_starting_boundary_spec i segment) as (good & -> & Hg);
      [apply Hin; now left|]. simpl.
    destruct good.
    + exists (seg_start segment). split; [reflexivity|]. right.
      exists i, segment. repeat split; trivial; [now left | now apply Hg].
    + destruct IH as (r & -> & Hr); [intros j Hj; apply Hin; now right|].
      exists r. split; [reflexivity|].
      destruct Hr as [(-> & Hnone) | (j & sj & Hj & Hnj & -> & Hs)].
      * left. split; [reflexivity|].
        intros j sj [<- | Hj] Hnj.
        -- rewrite Hnth in Hnj. injection Hnj as <-.
           intro Hs. apply Hg in Hs. discriminate.
        -- now apply Hnone.
      * right. exists j, sj. repeat split; trivial. now right.
Qed.

Lemma scan_end_spec (t : Q) (idxs : list Z) :
  (forall i, In i idxs -> (0 <= i < n)%Z) ->
  exists r,
    scan_end segments t idxs = Ok r /\
    ((r = t /\
      forall i segment,
        In i idxs -> nth_error segments (Z.to_nat i) = Some segment ->
        ~ end_signal segments i segment) \/
     (exists i segment,
         In i idxs /\ nth_error segments (Z.to_nat i) = Some segment /\
         r = seg_end segment /\ end_signal segments i segment)).
Proof.
  induction idxs as [|i rest IH]; intro Hin; simpl.
  - exists t. split; [reflexivity|]. left. split; [reflexivity|].
    intros i segment [].
  - destruct (@py_get_in_range _ segments i) as (segment & -> & Hnth);
      [apply Hin; now left|]. simpl.
    destruct (@is_good_ending_boundary_spec i segment) as (good & -> & Hg);
      [apply Hin; now left|]. simpl.
    destruct good.
    + exists (seg_end segment). split; [reflexivity|]. right.
      exists i, segment. repeat split; trivial; [now left | now apply Hg].
    + destruct IH as (r & -> & Hr); [intros j Hj; apply Hin; now right|].
      exists r. split; [reflexivity|].
      destruct Hr as [(-> & Hnone) | (j & sj & Hj & Hnj & -> & Hs)].
      * left. split; [reflexivity|].
        intros j sj [<- | Hj] Hnj.
        -- rewrite Hnth in Hnj. injection Hnj as <-.
           intro Hs. apply Hg in Hs. discriminate.
        -- now apply Hnone.
      * right. exists j, sj. repeat split; trivial. now right.
Qed.

(** The refinements of a resolved boundary never raise, and return the
    original time or the boundary of a segment of the window that carries a
    signal. *)
Lemma find_better_start_boundary_spec (idx : Z) (t : Q) :
  (0 <= idx < n)%Z ->
  exists r,
    find_better_start_boundary segments idx t = Ok r /\
    (r = t \/
     exists i segment,
       (idx - 3 < i <= idx)%Z /\ (0 < i)%Z /\
       nth_error segments (Z.to_nat i) = Some segment /\
       r = seg_start segment /\ start_signal segments i segment).
Proof.
  intro Hidx. unfold find_better_start_boundary.
  destruct (Z.leb_spec idx 0) as [Hz|Hpos].
  - exists t. split; [reflexivity | now left].
  - destruct (@scan_start_spec t (py_range_down idx (Z.max 0 (idx - 3))))
      as (r & Hr & Hcase).
    + intros i Hi. apply in_py_range_down in Hi. lia.
    + exists r. split; [exact Hr|].
      destruct Hcase as [(-> & _) | (i & s & Hi & Hnth & -> & Hs)].
      * now left.
      * right. exists i, s. apply in_py_range_down in Hi.
        repeat split; trivial; lia.
Qed.

Lemma find_better_end_boundary_spec (idx : Z) (t : Q) :
  (0 <= idx < n)%Z ->
  exists r,
    find_better_end_boundary segments idx t = Ok r /\
    (r = t \/
     exists i segment,
       (idx <= i < idx + 3)%Z /\ (i < n)%Z /\
       nth_error segments (Z.to_nat i) = Some segment /\
       r = seg_end segment /\ end_signal segments i segment).
Proof.
  intro Hidx. unfold find_better_end_boundary. fold n.
  destruct (Z.leb_spec (n - 1) idx) as [Hlast|Hin].
  - exists t. split; [reflexivity | now left].
  - destruct (@scan_end_spec t (py_range idx (Z.min n (idx + 3))))
      as (r & Hr & Hcase).
    + intros i Hi. apply in_py_range in Hi. lia.
    + exists r. split; [exact Hr|].
      destruct Hcase as [(-> & _) | (i & s & Hi & Hnth & -> & Hs)].
      * now left.
      * right. exists i, s. apply in_py_range in Hi.
        repeat split; trivial; lia.
Qed.

End BoundarySearch.



(** ** Boundary refinement of candidates *)

Section Refinement.

Import Boundaries.

Variable segments : transcript.

Lemma find_segment_index_in_range (t : Q) (i : Z) :
  find_segment_index segments t = Some i ->
  (0 <= i < Z.of_nat (length segments))%Z.
Proof.
  intro H. pose proof (find_from_spec segments t 0) as Hs.
  unfold find_segment_index in H. rewrite H in Hs. apply Hs.
Qed.

Lemma improve_clips_spec (ai_analysis : list clip_info) :
  exists improved,
    improve_clips segments ai_analysis = Ok improved /\
    Forall2 (refined_from segments)
            (filter (resolved segments) ai_analysis) improved.
Proof.
  induction ai_analysis as [|c rest (improved & IH & Hall)]; simpl.
  - exists []. split; [reflexivity | constructor].
  - unfold resolved at 1.
    destruct (find_segment_index segments (start_time c)) as [si|] eqn:Hs;
      [|exists improved; now split].
    destruct (find_segment_index segments (end_time c)) as [ei|] eqn:He;
      [|exists improved; now split].
    destruct (@find_better_start_boundary_spec segments si (start_time c))
      as (rs & Hrs & _); [now apply find_segment_index_in_range with (t := start_time c)|].
    destruct (@find_better_end_boundary_spec segments ei (end_time c))
      as (re & Hre & _); [now apply find_segment_index_in_range with (t := end_time c)|].
    rewrite Hrs, Hre, IH. simpl.
    eexists. split; [reflexivity|].
    constructor; [|exact Hall].
    exists si, ei. simpl. repeat split; trivial.
Qed.

End Refinement.

(** C3, as stated, fails: the example candidate starts in the first segment
    and ends in the last one, both boundaries come back unchanged, and the
    refined clip is flagged [boundary_improved] all the same. *)
Lemma validate_flag_counterexample :
  exists c',
    resolved example_transcript example_candidate = true /\
    Boundaries.validate_and_improve_boundaries
      example_transcript [example_candidate] = Ok [c'] /\
    (start_time c' == start_time example_candidate)%Q /\
    (end_time c' == end_time example_candidate)%Q /\
    ~ flag_tracks_change example_candidate c'.
Proof.
  eexists. split; [reflexivity|]. split; [reflexivity|].
  split; [reflexivity|]. split; [reflexivity|].
  unfold flag_tracks_change. simpl. intros [H _].
  destruct (H eq_refl) as [Hn | Hn]; apply Hn; reflexivity.
Qed.

(** C3, amended. [validate_and_improve_boundaries] never raises.  It drops
    the candidates that are not resolved and keeps the resolved ones in
    order; each kept clip has [original_start]/[original_end] equal to the
    candidate's times, its times replaced by the results of the two boundary
    searches, and [boundary_improved] set to true, whether or not a boundary
    moved. *)
Theorem validate_and_improve_boundaries_flags (segments : transcript)
        (ai_analysis : list clip_info) :
  exists improved,
    Boundaries.validate_and_improve_boundaries segments ai_analysis
      = Ok improved /\
    Forall2 (refined_from segments)
            (filter (resolved segments) ai_analysis) improved /\
    Forall (fun c' => boundary_improved c' = Some true) improved.
Proof.
  destruct (improve_clips_spec segments ai_analysis) as (improved & H & Hall).
  exists improved. split; [|split].
  - unfold Boundaries.validate_and_improve_boundaries.
    destruct ai_analysis; [|exact H].
    simpl in H. exact H.
  - exact Hall.
  - clear H. induction Hall as [|c c' l l' Hc _ IH]; constructor; trivial.
    destruct Hc as (si & ei & H). apply H.
Qed.

(** ** Boundary quality *)

Section BoundaryQuality.

Import Boundaries Quality.

Variable segments : transcript.

Let n := Z.of_nat (length segments).

Lemma marker_bonus_start (segment : segment) :
  marker_bonus_is "start" segment
    (if starts_with_marker (strip (seg_text segment)) then 3 else 0).
Proof.
  unfold marker_bonus_is, marker_match. simpl.
  destruct (starts_with_marker (strip (seg_text segment))) eqn:Hm.
  - left. split; [reflexivity|]. now apply starts_with_marker_true.
  - right. split; [reflexivity|]. intro H.
    apply starts_with_marker_true in H. congruence.
Qed.

Lemma marker_bonus_end (boundary_type : string) (segment : segment) :
  String.eqb boundary_type "start" = false ->
  marker_bonus_is boundary_type segment
    (if ends_with_marker (strip (seg_text segment)) then 3 else 0).
Proof.
  intro Hbt. unfold marker_bonus_is, marker_match. rewrite Hbt.
  destruct (ends_with_marker (strip (seg_text segment))) eqn:Hm.
  - left. split; [reflexivity|]. now apply ends_with_marker_true.
  - right. split; [reflexivity|]. intro H.
    apply ends_with_marker_true in H. congruence.
Qed.

(** The three outcomes of the gap tests. *)
Lemma pause_bonus_cases (gap : Q) :
  pause_bonus_is (Some gap)
    (if Qltb long_pause gap then 2
     else if Qltb short_pause gap then 1 else 0).
Proof.
  unfold pause_bonus_is.
  destruct (Qltb long_pause gap) eqn:Hlong; qcases.
  - left. now split.
  - destruct (Qltb short_pause gap) eqn:Hshort; qcases.
    + right. left. repeat split; assumption.
    + right. right. now split.
Qed.

(** On an index of the transcript the score is the capped sum of the base,
    the marker bonus and the pause bonus, and nothing is raised. *)
Lemma assess_boundary_quality_in_range (idx : Z) (boundary_type : string) :
  (0 <= idx < n)%Z ->
  exists segment m p q,
    nth_error segments (Z.to_nat idx) = Some segment /\
    assess_boundary_quality segments idx boundary_type = Ok q /\
    score q = Z.min 10 (5 + m + p) /\
    marker_bonus_is boundary_type segment m /\
    pause_bonus_is (adjacent_gap segments idx boundary_type) p.
Proof.
  intro Hidx. unfold assess_boundary_quality. fold n.
  destruct (Z.ltb_spec idx 0) as [Hneg|_]; [lia|].
  destruct (Z.leb_spec n idx) as [Hbig|_]; [lia|]. cbn [orb].
  destruct (py_get_in_range _ segments idx Hidx) as (segment & -> & Hnth).
  cbn [bind]. cbv zeta. exists segment.
  unfold adjacent_gap. rewrite Hnth.
  destruct (String.eqb boundary_type "start") eqn:Hbt.
  - apply String.eqb_eq in Hbt. subst boundary_type.
    pose proof (marker_bonus_start segment) as Hm.
    destruct (Z.ltb_spec 0 idx) as [Hpos|Hedge].
    + destruct (py_get_in_range _ segments (idx - 1)) as (prev & -> & Hprev);
        [subst n; lia|]. cbn [bind]. rewrite Hprev.
      generalize (pause_bonus_cases (seg_start segment - seg_end prev)).
      destruct (Qltb long_pause (seg_start segment - seg_end prev));
        [|destruct (Qltb short_pause (seg_start segment - seg_end prev))];
        intro Hp; unfold capped; eexists _, _, _;
        (split; [reflexivity|]); (split; [reflexivity|]);
        (split; [|split; [exact Hm | exact Hp]]);
        cbn [score]; destruct (starts_with_marker _); reflexivity.
    + unfold capped. eexists _, 0%Z, _.
      split; [reflexivity|]. split; [reflexivity|].
      split; [|split; [exact Hm | reflexivity]].
      cbn [score]. destruct (starts_with_marker _); reflexivity.
  - pose proof (marker_bonus_end boundary_type segment Hbt) as Hm.
    destruct (Z.ltb_spec idx (n - 1)) as [Hin|Hedge].
    + destruct (py_get_in_range _ segments (idx + 1)) as (next & -> & Hnext);
        [subst n; lia|]. cbn [bind]. rewrite Hnext.
      generalize (pause_bonus_cases (seg_start next - seg_end segment)).
      destruct (Qltb long_pause (seg_start next - seg_end segment));
        [|destruct (Qltb short_pause (seg_start next - seg_end segment))];
        intro Hp; unfold capped; eexists _, _, _;
        (split; [reflexivity|]); (split; [reflexivity|]);
        (split; [|split; [exact Hm | exact Hp]]);
        cbn [score]; destruct (ends_with_marker _); reflexivity.
    + assert (Hnone : nth_error segments (Z.to_nat (idx + 1)) = None)
        by (apply nth_error_None; subst n; lia).
      rewrite Hnone.
      unfold capped. eexists _, 0%Z, _.
      split; [reflexivity|]. split; [reflexivity|].
      split; [|split; [exact Hm | reflexivity]].
      cbn [score]. destruct (ends_with_marker _); reflexivity.
Qed.

End BoundaryQuality.

Lemma bonus_bounds (boundary_type : string) (segment : segment)
      (gap : option Q) (m p : Z) :
  marker_bonus_is boundary_type segment m -> pause_bonus_is gap p ->
  (5 <= Z.min 10 (5 + m + p) <= 10)%Z.
Proof.
  intros [[-> _] | [-> _]] Hp;
    (destruct gap as [g|];
     [destruct Hp as [[-> _] | [[-> _] | [-> _]]] | rewrite Hp]); lia.
Qed.

(** C6. For every index of the transcript and boundary type,
    [assess_boundary_quality] returns [min(10, 5 + m + p)], where [m] is 3
    when the segment's trimmed, lower-cased text matches a start (resp. end)
    marker and 0 otherwise, and [p] is 2 when the adjacent gap exceeds 1.5,
    1 when it lies in (0.5, 1.5], and 0 otherwise or at the edge of the
    transcript.  The score lies in [0, 10], and segment 0 of the example
    transcript scores exactly 8 as a start. *)
Theorem assess_boundary_quality_score (segments : transcript) (idx : Z)
        (boundary_type : string) :
  (0 <= idx < Z.of_nat (length segments))%Z ->
  (exists segment m p q,
      nth_error segments (Z.to_nat idx) = Some segment /\
      Quality.assess_boundary_quality segments idx boundary_type = Ok q /\
      Quality.score q = Z.min 10 (5 + m + p) /\
      marker_bonus_is boundary_type segment m /\
      pause_bonus_is (adjacent_gap segments idx boundary_type) p /\
      (0 <= Quality.score q <= 10)%Z) /\
  (exists q,
      Quality.assess_boundary_quality example_transcript 0 "start" = Ok q /\
      Quality.score q = 8%Z).
Proof.
  intro Hidx. split.
  - destruct (assess_boundary_quality_in_range segments idx boundary_type Hidx)
      as (segment & m & p & q & Hnth & Hq & Hscore & Hm & Hp).
    exists segment, m, p, q. repeat split; trivial;
      rewrite Hscore;
      pose proof (bonus_bounds boundary_type segment _ m p Hm Hp); lia.
  - eexists. split; reflexivity.
Qed.

Lemma assess_boundary_quality_score_witness :
  (0 <= 2 < Z.of_nat (length example_transcript))%Z /\
  exists segment m p q,
    nth_error example_transcript (Z.to_nat 2) = Some segment /\
    Quality.assess_boundary_quality example_transcript 2 "start" = Ok q /\
    Quality.score q = Z.min 10 (5 + m + p) /\
    marker_bonus_is "start" segment m /\
    pause_bonus_is (adjacent_gap example_transcript 2 "start") p /\
    (0 <= Quality.score q <= 10)%Z.
Proof.
  split; [simpl; lia|].
  apply (assess_boundary_quality_score example_transcript 2 "start").
  simpl; lia.
Defined.

(** C10. On an index of the transcript [assess_boundary_quality] never
    scores below the base of 5: the bonuses only add and the cap only cuts at
    10, so the score is one of 5, ..., 10.  The value 0 is returned exactly
    for an index outside the transcript. *)
Theorem assess_boundary_quality_floor (segments : transcript) (idx : Z)
        (boundary_type : string) :
  exists q,
    Quality.assess_boundary_quality segments idx boundary_type = Ok q /\
    ((0 <= idx < Z.of_nat (length segments))%Z ->
     (5 <= Quality.score q <= 10)%Z) /\
    (Quality.score q = 0%Z <->
     ~ (0 <= idx < Z.of_nat (length segments))%Z).
Proof.
  destruct (Z.ltb_spec idx 0) as [Hneg|Hnonneg].
  - eexists. unfold Quality.assess_boundary_quality.
    destruct (Z.ltb_spec idx 0) as [_|H]; [|lia]. cbn [orb].
    split; [reflexivity|]. split; [lia|]. simpl. split; [lia | reflexivity].
  - destruct (Z.leb_spec (Z.of_nat (length segments)) idx) as [Hbig|Hin].
    + eexists. unfold Quality.assess_boundary_quality.
      destruct (Z.leb_spec (Z.of_nat (length segments)) idx) as [_|H]; [|lia].
      rewrite orb_true_r.
      split; [reflexivity|]. split; [lia|]. simpl. split; [lia | reflexivity].
    + assert (Hidx : (0 <= idx < Z.of_nat (length segments))%Z) by lia.
      destruct (assess_boundary_quality_in_range segments idx boundary_type
                                                 Hidx)
        as (segment & m & p & q & Hnth & Hq & Hscore & Hm & Hp).
      pose proof (bonus_bounds boundary_type segment _ m p Hm Hp) as Hb.
      exists q. split; [exact Hq|]. rewrite Hscore. split; [intros _; exact Hb|].
      split; [lia | intro Hout; contradiction].
Qed.

(** ** Duration score *)

Section DurationScore.

Import Quality.

Local Open Scope Q_scope.

Lemma py_max_Qmax (a b : Q) : py_max a b == Qmax a b.
Proof.
  destruct (py_max_spec a b) as [[H ->] | [H ->]];
    destruct (Q.max_spec a b) as [[H' E] | [H' E]]; lra.
Qed.

Lemma py_abs_Qabs (x : Q) : py_abs x == Qabs x.
Proof.
  destruct (py_abs_spec x) as [[H ->] | [H ->]].
  - rewrite Qabs_neg; lra.
  - rewrite Qabs_pos; lra.
Qed.

Variable cfg : settings.

Let minD : Q := inject_Z (min_clip_duration cfg).
Let maxD : Q := inject_Z (max_clip_duration cfg).

Lemma duration_score_short (d : Q) :
  d < minD ->
  assess_duration_appropriateness cfg d == Qmax 0 (10 - (minD - d) * 2).
Proof.
  intro H. unfold assess_duration_appropriateness. fold minD maxD.
  apply Qltb_lt in H. rewrite H. apply py_max_Qmax.
Qed.

Lemma duration_score_long (d : Q) :
  minD <= d -> maxD < d ->
  assess_duration_appropriateness cfg d
  == Qmax 0 (10 - (d - maxD) * (1 # 2)).
Proof.
  intros Hmin H. unfold assess_duration_appropriateness. fold minD maxD.
  apply Qltb_ge in Hmin. apply Qltb_lt in H. rewrite Hmin, H.
  rewrite py_max_Qmax.
  destruct (Q.max_spec 0 (10 - (d - maxD) * (5 # 10))) as [[? E] | [? E]];
    destruct (Q.max_spec 0 (10 - (d - maxD) * (1 # 2))) as [[? E'] | [? E']];
    lra.
Qed.

Lemma duration_score_in_range (d : Q) :
  minD <= d -> d <= maxD ->
  assess_duration_appropriateness cfg d
  == Qmax 5 (10 - Qabs (d - (minD + maxD) / 2) * (1 # 2)).
Proof.
  intros Hmin Hmax. unfold assess_duration_appropriateness. fold minD maxD.
  apply Qltb_ge in Hmin. apply Qltb_ge in Hmax. rewrite Hmin, Hmax.
  rewrite py_max_Qmax.
  pose proof (py_abs_Qabs (d - (minD + maxD) / 2)) as Habs.
  destruct (Q.max_spec 5 (10 - py_abs (d - (minD + maxD) / 2) * (5 # 10)))
    as [[? E] | [? E]];
    destruct (Q.max_spec 5 (10 - Qabs (d - (minD + maxD) / 2) * (1 # 2)))
      as [[? E'] | [? E']];
    lra.
Qed.

End DurationScore.

(** C9. With configured bounds [minD < maxD], the duration score of [d] is
    [max(0, 10 - (minD - d) * 2)] below [minD],
    [max(0, 10 - (d - maxD) * 0.5)] above [maxD], and
    [max(5, 10 - |d - (minD + maxD) / 2| * 0.5)] in between.  So a duration
    inside the bounds scores at least 5, one outside can score 0, and the
    score jumps at both bounds: it tends to 10 from outside, while at the
    bound itself it is [max(5, 10 - (maxD - minD) / 4)], below 10. *)
Theorem assess_duration_appropriateness_formula (cfg : settings) (d : Q) :
  let minD := inject_Z (min_clip_duration cfg) in
  let maxD := inject_Z (max_clip_duration cfg) in
  let score := Quality.assess_duration_appropriateness cfg in
  (minD < maxD)%Q ->
  ((d < minD)%Q -> (score d == Qmax 0 (10 - (minD - d) * 2))%Q) /\
  ((maxD < d)%Q -> (score d == Qmax 0 (10 - (d - maxD) * (1 # 2)))%Q) /\
  ((minD <= d)%Q -> (d <= maxD)%Q ->
   (score d == Qmax 5 (10 - Qabs (d - (minD + maxD) / 2) * (1 # 2)))%Q /\
   (5 <= score d)%Q) /\
  ((d <= minD - 5)%Q -> (score d == 0)%Q) /\
  ((maxD + 20 <= d)%Q -> (score d == 0)%Q) /\
  (forall e, (0 < e)%Q -> (e <= 5)%Q -> (score (minD - e) == 10 - e * 2)%Q) /\
  (forall e, (0 < e)%Q -> (e <= 20)%Q ->
             (score (maxD + e) == 10 - e * (1 # 2))%Q) /\
  (score minD == Qmax 5 (10 - (maxD - minD) / 4))%Q /\
  (score maxD == Qmax 5 (10 - (maxD - minD) / 4))%Q /\
  (score minD < 10)%Q /\ (score maxD < 10)%Q.
Proof.
  intros minD maxD score Hbounds. subst score.
  assert (Hshort : forall x, (x < minD)%Q ->
            (Quality.assess_duration_appropriateness cfg x
             == Qmax 0 (10 - (minD - x) * 2))%Q)
    by (intros x Hx; now apply duration_score_short).
  assert (Hlong : forall x, (maxD < x)%Q ->
            (Quality.assess_duration_appropriateness cfg x
             == Qmax 0 (10 - (x - maxD) * (1 # 2)))%Q)
    by (intros x Hx; apply duration_score_long; fold minD maxD; lra).
  assert (Hmid : forall x, (minD <= x)%Q -> (x <= maxD)%Q ->
            (Quality.assess_duration_appropriateness cfg x
             == Qmax 5 (10 - Qabs (x - (minD + maxD) / 2) * (1 # 2)))%Q)
    by (intros x H1 H2; now apply duration_score_in_range).
  assert (Hedge : forall x, (x == minD)%Q \/ (x == maxD)%Q ->
            (Qabs (x - (minD + maxD) / 2) == (maxD - minD) / 2)%Q).
  { intros x [Hx | Hx]; qdiv.
    - rewrite Qabs_neg; lra.
    - rewrite Qabs_pos; lra. }
  qdiv. repeat split.
  - apply Hshort.
  - apply Hlong.
  - now apply Hmid.
  - rewrite (Hmid d) by assumption. apply Q.le_max_l.
  - intro H. rewrite Hshort by lra.
    destruct (Q.max_spec 0 (10 - (minD - d) * 2)) as [[? E] | [? E]]; lra.
  - intro H. rewrite Hlong by lra.
    destruct (Q.max_spec 0 (10 - (d - maxD) * (1 # 2))) as [[? E] | [? E]]; lra.
  - intros e H0 H5. rewrite Hshort by lra.
    destruct (Q.max_spec 0 (10 - (minD - (minD - e)) * 2)) as [[? E] | [? E]];
      lra.
  - intros e H0 H20. rewrite Hlong by lra.
    destruct (Q.max_spec 0 (10 - (maxD + e - maxD) * (1 # 2)))
      as [[? E] | [? E]]; lra.
  - rewrite Hmid by lra.
    pose proof (Hedge minD (or_introl (Qeq_refl _))) as Ha.
    destruct (Q.max_spec 5 (10 - Qabs (minD - (minD + maxD) * (1 # 2))
                                 * (1 # 2)))
      as [[? E] | [? E]];
      destruct (Q.max_spec 5 (10 - (maxD - minD) * (1 # 4)))
        as [[? E'] | [? E']];
      lra.
  - rewrite Hmid by lra.
    pose proof (Hedge maxD (or_intror (Qeq_refl _))) as Ha.
    destruct (Q.max_spec 5 (10 - Qabs (maxD - (minD + maxD) * (1 # 2))
                                 * (1 # 2)))
      as [[? E] | [? E]];
      destruct (Q.max_spec 5 (10 - (maxD - minD) * (1 # 4)))
        as [[? E'] | [? E']];
      lra.
  - rewrite Hmid by lra.
    pose proof (Hedge minD (or_introl (Qeq_refl _))) as Ha.
    destruct (Q.max_spec 5 (10 - Qabs (minD - (minD + maxD) * (1 # 2))
                                 * (1 # 2)))
      as [[? E] | [? E]]; lra.
  - rewrite Hmid by lra.
    pose proof (Hedge maxD (or_intror (Qeq_refl _))) as Ha.
    destruct (Q.max_spec 5 (10 - Qabs (maxD - (minD + maxD) * (1 # 2))
                                 * (1 # 2)))
      as [[? E] | [? E]]; lra.
Qed.

Lemma assess_duration_appropriateness_formula_witness :
  (inject_Z (min_clip_duration default_settings)
   < inject_Z (max_clip_duration default_settings))%Q /\
  (5 <= Quality.assess_duration_appropriateness default_settings 60)%Q.
Proof.
  split; [reflexivity|].
  destruct (assess_duration_appropriateness_formula default_settings 60)
    as (_ & _ & Hmid & _); [reflexivity|].
  apply Hmid; unfold Qle; simpl; lia.
Defined.

(** ** Content completeness *)

Section ContentCompleteness.

Import Quality.

Variable segments : transcript.

Lemma py_range_cons (lo hi : Z) :
  (lo < hi)%Z -> py_range lo hi = lo :: py_range (lo + 1) hi.
Proof.
  intro H. unfold py_range.
  replace (Z.to_nat (hi - lo)) with (S (Z.to_nat (hi - (lo + 1)))) by lia.
  rewrite <- cons_seq. cbn [map]. f_equal; [lia|].
  rewrite <- seq_shift, map_map. apply map_ext. intro k. lia.
Qed.

Lemma py_range_nil (lo hi : Z) : (hi <= lo)%Z -> py_range lo hi = [].
Proof.
  intro H. unfold py_range.
  replace (Z.to_nat (hi - lo)) with 0%nat by lia. reflexivity.
Qed.

Lemma skipn_nth_error (A : Type) (l : list A) (k : nat) (a : A) :
  nth_error l k = Some a -> skipn k l = a :: skipn (S k) l.
Proof.
  revert l. induction k as [|k IH]; intros [|x l] H; try discriminate.
  - now injection H as ->.
  - simpl in H. simpl. now apply IH.
Qed.

(** The counting loop adds to its counter the number of sentence-ending
    segments among those the range covers. *)
Lemma count_complete_spec (k : nat) :
  forall (lo : Z) (acc : Z),
    (0 <= lo)%Z -> (lo + Z.of_nat k <= Z.of_nat (length segments))%Z ->
    count_complete segments (py_range lo (lo + Z.of_nat k)) acc
    = Ok (acc + Z.of_nat
                  (length
                     (filter (fun s => ends_sentence (strip (seg_text s)))
                             (firstn k (skipn (Z.to_nat lo) segments)))))%Z.
Proof.
  induction k as [|k IH]; intros lo acc Hlo Hhi.
  - rewrite py_range_nil by lia. simpl. f_equal. lia.
  - replace (lo + Z.of_nat (S k))%Z with (lo + 1 + Z.of_nat k)%Z by lia.
    rewrite py_range_cons by lia. cbn [count_complete].
    destruct (Z.ltb_spec lo (Z.of_nat (length segments))) as [Hin|Hout];
      [|lia].
    destruct (py_get_in_range _ segments lo) as (segment & -> & Hnth);
      [lia|]. cbn [bind].
    rewrite IH by lia.
    rewrite (skipn_nth_error _ segments (Z.to_nat lo) segment Hnth).
    replace (Z.to_nat (lo + 1)) with (S (Z.to_nat lo)) by lia.
    simpl firstn. simpl filter.
    destruct (ends_sentence (strip (seg_text segment))); simpl length;
      f_equal; lia.
Qed.

(** Where the range has at least two segments, the code agrees with the
    formula. *)
Lemma assess_content_completeness_multi (start_idx end_idx : Z) :
  (0 <= start_idx)%Z -> (start_idx < end_idx)%Z ->
  (end_idx < Z.of_nat (length segments))%Z ->
  exists r,
    assess_content_completeness segments start_idx end_idx = Ok r /\
    (r == completeness_formula segments start_idx end_idx)%Q.
Proof.
  intros H0 Hlt Hlen. unfold assess_content_completeness.
  destruct (Z.leb_spec end_idx start_idx) as [Hle|_]; [lia|].
  replace (end_idx + 1)%Z
    with (start_idx + Z.of_nat (Z.to_nat (end_idx - start_idx + 1)))%Z by lia.
  rewrite count_complete_spec by lia. cbn [bind].
  destruct (Z.ltb_spec 0 (end_idx - start_idx + 1)) as [_|Hneg]; [|lia].
  eexists. split; [reflexivity|].
  unfold completeness_formula, complete_in_range, segments_in_range.
  rewrite Z.add_0_l.
  set (k := inject_Z (Z.of_nat (length _))).
  set (m := inject_Z (end_idx - start_idx + 1)).
  assert (E : (k / m * 10 == 10 * k / m)%Q).
  { unfold Qdiv. ring. }
  destruct (py_min_spec 10 (k / m * 10)) as [[H ->] | [H ->]];
    destruct (Q.min_spec 10 (10 * k / m)) as [[H' E'] | [H' E']]; lra.
Qed.

End ContentCompleteness.

(** C5 (the code falls short of it). A range of one segment is scored 0 by
    the guard [start_idx >= end_idx], although its only segment, the first
    one of the example transcript, ends in a full stop and the formula
    [min(10, 10 * k / n)] gives 10 there. *)
Theorem assess_content_completeness_single_segment :
  Quality.assess_content_completeness example_transcript 0 0 = Ok 0%Q /\
  complete_in_range example_transcript 0 0 = 1%Z /\
  (completeness_formula example_transcript 0 0 == 10)%Q /\
  (forall (segments : transcript) (idx : Z),
      Quality.assess_content_completeness segments idx idx = Ok 0%Q).
Proof.
  split; [reflexivity|]. split; [reflexivity|]. split; [reflexivity|].
  intros segments idx. unfold Quality.assess_content_completeness.
  now rewrite Z.leb_refl.
Qed.

(** ** Which fallback strategies can raise *)

Section FallbackTotality.

Import Fallback.

Lemma in_firstn (A : Type) (k : nat) (l : list A) (x : A) :
  In x (firstn k l) -> In x l.
Proof.
  intro H. rewrite <- (firstn_skipn k l). apply in_or_app. now left.
Qed.

Lemma in_py_take (A : Type) (k : Z) (l : list A) (x : A) :
  In x (py_take k l) -> In x l.
Proof.
  unfold py_take. destruct (k <? 0)%Z; apply in_firstn.
Qed.

Lemma in_insert_by_gap (b x : break_point) (l : list break_point) :
  In x (insert_by_gap b l) -> x = b \/ In x l.
Proof.
  induction l as [|y rest IH]; simpl.
  - intros [<- | []]. now left.
  - destruct (Qleb (bp_gap y) (bp_gap b)); simpl.
    + intros [<- | H]; [now left | now right].
    + intros [<- | H]; [right; now left|].
      destruct (IH H) as [-> | Hin]; [now left | right; now right].
Qed.

Lemma in_sort_by_gap_desc (x : break_point) (l : list break_point) :
  In x (sort_by_gap_desc l) -> In x l.
Proof.
  induction l as [|b rest IH]; simpl; [tauto|].
  intro H. destruct (in_insert_by_gap _ _ _ H) as [-> | Hin];
    [now left | right; now apply IH].
Qed.

(** A break point records the index of a segment that has a successor. *)
Lemma collect_breaks_idx (segments : list segment) :
  forall (i : Z) (bp : break_point),
    In bp (collect_breaks i segments) ->
    (i <= bp_segment_idx bp < i + Z.of_nat (length segments) - 1)%Z.
Proof.
  induction segments as [|s rest IH]; intros i bp H; [destruct H|].
  destruct rest as [|nxt rest']; [destruct H|].
  cbn [collect_breaks] in H.
  assert (Hrest : In bp (collect_breaks (i + 1) (nxt :: rest')) ->
                  (i <= bp_segment_idx bp
                   < i + Z.of_nat (length (s :: nxt :: rest')) - 1)%Z).
  { intro Hin. apply IH in Hin. cbn [length] in *. lia. }
  destruct (Qltb 1 (seg_start nxt - seg_end s)); [|now apply Hrest].
  destruct H as [<- | H]; [|now apply Hrest].
  cbn [bp_segment_idx length]. lia.
Qed.

Variable segments : list segment.

Lemma scan_clip_start_total (target_start : Q) (idxs : list Z) :
  (forall i, In i idxs -> (0 <= i < Z.of_nat (length segments))%Z) ->
  exists r, scan_clip_start segments target_start idxs = Ok r.
Proof.
  induction idxs as [|i rest IH]; intro Hin; simpl.
  - now eexists.
  - destruct (py_get_in_range _ segments i) as (s & -> & _);
      [apply Hin; now left|]. cbn [bind].
    destruct (Qleb (seg_start s) target_start); [now eexists|].
    apply IH. intros j Hj. apply Hin. now right.
Qed.

Lemma find_clip_start_total (end_segment_idx min_duration : Z) :
  (0 <= end_segment_idx < Z.of_nat (length segments))%Z ->
  exists r, find_clip_start segments end_segment_idx min_duration = Ok r.
Proof.
  intro Hidx. unfold find_clip_start.
  destruct (py_get_in_range _ segments end_segment_idx Hidx) as (s & -> & _).
  cbn [bind]. apply scan_clip_start_total.
  intros i Hi. apply in_py_range_down in Hi. lia.
Qed.

Lemma natural_break_loop_total (min_duration : Z)
      (breaks : list break_point) :
  (forall bp, In bp breaks ->
              (0 <= bp_segment_idx bp < Z.of_nat (length segments))%Z) ->
  forall i, exists clips,
      natural_break_loop segments min_duration i breaks = Ok clips.
Proof.
  induction breaks as [|bp rest IH]; intros Hin i; simpl.
  - now eexists.
  - destruct (find_clip_start_total (bp_segment_idx bp) min_duration)
      as (r & ->); [apply Hin; now left|]. cbn [bind].
    destruct (IH (fun b Hb => Hin b (or_intror Hb)) (i + 1)%Z) as (cs & ->).
    cbn [bind].
    destruct (Qleb (inject_Z min_duration) (bp_time bp - r)); now eexists.
Qed.

(** Once both of its entry fields are read, the natural-break strategy
    raises nothing; it raises [ValueError] when one of them holds no
    integer. *)
Lemma find_natural_break_clips_total (ui : entry_fields) (max_clips : Z)
      (lo hi : Z) :
  min_clip_duration_field ui = Some lo ->
  max_clip_duration_field ui = Some hi ->
  exists clips, find_natural_break_clips ui segments max_clips = Ok clips.
Proof.
  intros Hlo Hhi. unfold find_natural_break_clips. rewrite Hlo, Hhi.
  cbn [py_int bind]. apply natural_break_loop_total.
  intros bp Hbp.
  apply in_py_take, in_sort_by_gap_desc, collect_breaks_idx in Hbp. lia.
Qed.

Lemma find_natural_break_clips_value_error (ui : entry_fields)
      (max_clips : Z) :
  min_clip_duration_field ui = None \/ max_clip_duration_field ui = None ->
  find_natural_break_clips ui segments max_clips = Raise ValueError.
Proof.
  unfold find_natural_break_clips.
  destruct (min_clip_duration_field ui); [|reflexivity].
  intros [H | ->]; [discriminate | reflexivity].
Qed.

(** The fixed-interval strategy raises exactly for a clip count of zero
    (the division of the duration by it). *)
Lemma find_fixed_duration_clips_raises (max_clips target_duration : Z) :
  Qeq_bool (transcript_duration segments) 0 = false ->
  (max_clips = 0%Z ->
   find_fixed_duration_clips segments max_clips target_duration
   = Raise ZeroDivisionError) /\
  (max_clips <> 0%Z ->
   exists clips,
     find_fixed_duration_clips segments max_clips target_duration = Ok clips).
Proof.
  intro Hdur. unfold find_fixed_duration_clips, py_div. rewrite Hdur. split.
  - intros ->. reflexivity.
  - intro Hnz.
    destruct (Qeq_bool (inject_Z max_clips) 0) eqn:E.
    + apply Qeq_bool_eq in E. unfold Qeq in E. simpl in E. lia.
    + cbn [bind]. now eexists.
Qed.

(** The naive split raises nothing and yields one clip per index. *)
Lemma simple_time_loop_total (total_duration : Q)
      (max_clips target_duration : Z) (idxs : list Z) :
  (idxs <> [] -> max_clips <> 0%Z) ->
  exists clips,
    simple_time_loop total_duration max_clips target_duration idxs = Ok clips
    /\ length clips = length idxs.
Proof.
  induction idxs as [|i rest IH]; intro Hnz; simpl.
  - now exists [].
  - unfold py_div.
    destruct (Qeq_bool (inject_Z max_clips) 0) eqn:E.
    + apply Qeq_bool_eq in E. unfold Qeq in E. simpl in E.
      exfalso. apply Hnz; [discriminate | lia].
    + cbn [bind].
      destruct IH as (cs & -> & Hlen); [intros _; now apply Hnz|].
      cbn [bind]. eexists. split; [reflexivity|]. simpl. now rewrite Hlen.
Qed.

Lemma create_simple_time_clips_total (total_duration : Q)
      (max_clips target_duration : Z) :
  exists clips,
    create_simple_time_clips total_duration max_clips target_duration
    = Ok clips /\
    length clips = Z.to_nat max_clips.
Proof.
  unfold create_simple_time_clips.
  destruct (simple_time_loop_total total_duration max_clips target_duration
                                   (py_range 0 max_clips))
    as (cs & H & Hlen).
  - intros Hne Hz. subst max_clips. now apply Hne.
  - exists cs. split; [exact H|]. rewrite Hlen.
    unfold py_range. rewrite length_map, length_seq. f_equal. lia.
Qed.

End FallbackTotality.

(** ** Fallback cascade *)

(** C4, as stated, fails.  With smart duration on, the natural-break
    strategy finds no clip of 20 seconds on the example transcript and
    returns the empty list, yet the fixed-interval strategy is not called:
    the naive split follows directly.  With smart duration off, the
    natural-break strategy is not called at all. *)
Lemma fallback_cascade_counterexample :
  run_tier (parsed smart_settings) example_transcript 5 60
           Fallback.NaturalBreak = Ok [] /\
  fst (Fallback.generate_fallback_clips_traced
         (parsed smart_settings) (Some example_transcript))
  = [Fallback.NaturalBreak; Fallback.NaiveSplit] /\
  ~ In Fallback.FixedInterval
       (fst (Fallback.generate_fallback_clips_traced
               (parsed smart_settings) (Some example_transcript))) /\
  ~ In Fallback.NaturalBreak
       (fst (Fallback.generate_fallback_clips_traced
               (parsed default_settings) (Some example_transcript))).
Proof.
  split; [reflexivity|]. split; [reflexivity|].
  split; vm_compute; intuition discriminate.
Qed.

(** C4, amended. On a transcript of non-zero duration, once the clip count
    and the target duration are read, [generate_fallback_clips] calls
    exactly one of the first two strategies, chosen by the smart-duration
    setting (natural-break when it is on, fixed-interval when it is off),
    and then the naive time split if and only if the chosen strategy
    returned the empty list; the other of the first two strategies is never
    called.  The clips returned are those of the chosen strategy when it
    found some and those of the naive split (one per requested clip) when
    it found none. *)
Theorem generate_fallback_clips_two_step (ui : entry_fields)
        (segments : transcript) (max_clips target : Z) :
  Qeq_bool (Fallback.transcript_duration segments) 0 = false ->
  max_clips_field ui = Some max_clips ->
  target_duration ui = Ok target ->
  let trace :=
    fst (Fallback.generate_fallback_clips_traced ui (Some segments)) in
  let clips := Fallback.generate_fallback_clips ui (Some segments) in
  let first := run_tier ui segments max_clips target (chosen_tier ui) in
  (trace = [chosen_tier ui]
   \/ trace = [chosen_tier ui; Fallback.NaiveSplit]) /\
  (In Fallback.NaiveSplit trace <-> first = Ok []) /\
  (In Fallback.NaturalBreak trace <-> smart_duration_field ui = true) /\
  (In Fallback.FixedInterval trace <-> smart_duration_field ui = false) /\
  (forall c cs, first = Ok (c :: cs) -> clips = c :: cs) /\
  (first = Ok [] ->
   run_tier ui segments max_clips target Fallback.NaiveSplit = Ok clips /\
   length clips = Z.to_nat max_clips).
Proof.
  intros Hdur Hmax Htarget. cbv zeta.
  unfold Fallback.generate_fallback_clips,
    Fallback.generate_fallback_clips_traced.
  rewrite Hdur, Hmax. cbn [py_int].
  unfold target_duration in Htarget. rewrite Htarget.
  unfold chosen_tier, run_tier.
  destruct (create_simple_time_clips_total
              (Fallback.transcript_duration segments) max_clips target)
    as (naive & -> & Hlen).
  destruct (smart_duration_field ui).
  - destruct (Fallback.find_natural_break_clips ui segments max_clips)
      as [[|c cs]|e]; cbn [fst snd]; repeat split;
      try (now left); try (now right); try assumption;
      try (simpl; intuition (discriminate || congruence)).
  - destruct (Fallback.find_fixed_duration_clips segments max_clips target)
      as [[|c cs]|e]; cbn [fst snd]; repeat split;
      try (now left); try (now right); try assumption;
      try (simpl; intuition (discriminate || congruence)).
Qed.

Lemma generate_fallback_clips_two_step_witness :
  Qeq_bool (Fallback.transcript_duration example_transcript) 0 = false /\
  (In Fallback.NaiveSplit
      (fst (Fallback.generate_fallback_clips_traced
              (parsed smart_settings) (Some example_transcript)))
   <-> run_tier (parsed smart_settings) example_transcript 5 60
                (chosen_tier (parsed smart_settings))
       = Ok []).
Proof.
  split; [reflexivity|].
  apply (generate_fallback_clips_two_step
           (parsed smart_settings) example_transcript 5 60);
    reflexivity.
Defined.

(** * Further properties of the code *)

(** ** Cue sequences *)

(** X1. Every cue returned by [process_subtitle_segments] ends after it
    starts: a segment whose start, pushed behind the cue before it, would
    reach its own end is skipped, never emitted as an empty cue. *)
Theorem process_subtitle_segments_durations (segments : list segment) :
  Forall (fun c => (seg_start c < seg_end c)%Q)
         (Subtitles.process_subtitle_segments segments).
Proof.
  apply Forall_forall. intros c Hc.
  pose proof (process_subtitle_segments_positive segments c Hc) as H.
  unfold Subtitles.cue_duration in H. lra.
Qed.

Section CueProvenance.

Import Subtitles.

Local Open Scope Q_scope.

Lemma insert_by_start_in (s x : segment) (l : list segment) :
  In x (insert_by_start s l) <-> x = s \/ In x l.
Proof.
  induction l as [|y rest IH]; simpl.
  - intuition.
  - destruct (Qleb (seg_start s) (seg_start y)); simpl; [intuition|].
    rewrite IH. intuition.
Qed.

Lemma sorted_by_start_in (x : segment) (l : list segment) :
  In x (sorted_by_start l) <-> In x l.
Proof.
  induction l as [|s rest IH]; simpl; [tauto|].
  rewrite insert_by_start_in, IH. intuition.
Qed.

Lemma insert_by_start_length (s : segment) (l : list segment) :
  length (insert_by_start s l) = S (length l).
Proof.
  induction l as [|y rest IH]; simpl; [reflexivity|].
  destruct (Qleb (seg_start s) (seg_start y)); simpl; [reflexivity|].
  now rewrite IH.
Qed.

Lemma sorted_by_start_length (l : list segment) :
  length (sorted_by_start l) = length l.
Proof.
  induction l as [|s rest IH]; simpl; [reflexivity|].
  now rewrite insert_by_start_length, IH.
Qed.

(** One iteration leaves [processed] alone or appends one cue made from
    the segment at hand. *)
Lemma process_one_cases (next : option segment) (processed : list segment)
      (s : segment) :
  process_one next processed s = processed \/
  exists c, process_one next processed s = processed ++ [c] /\ cue_of c s.
Proof.
  unfold process_one, cue_of, min_gap, min_duration.
  destruct (py_last processed) as [prev|];
    repeat match goal with
           | |- context [if ?x then _ else _] => destruct x eqn:?
           end;
    try (now left);
    right; eexists; (split; [reflexivity|]); simpl;
    (split; [reflexivity|]); qcases; lra.
Qed.

Lemma process_one_first (next : option segment) (s : segment) :
  exists c, process_one next [] s = [c].
Proof.
  unfold process_one. simpl. now eexists.
Qed.

Lemma process_loop_cases (segments : list segment) :
  forall processed,
    exists added,
      process_loop segments processed = processed ++ added /\
      (length added <= length segments)%nat /\
      (forall c, In c added -> exists s, In s segments /\ cue_of c s).
Proof.
  induction segments as [|s rest IH]; intro processed; simpl.
  - exists []. rewrite app_nil_r.
    split; [reflexivity|]. split; [simpl; lia | intros c []].
  - destruct (process_one_cases (hd_error rest) processed s)
      as [-> | (c & -> & Hc)].
    + destruct (IH processed) as (added & -> & Hlen & Hin).
      exists added. split; [reflexivity|]. split; [lia|].
      intros x Hx. destruct (Hin x Hx) as (s' & Hs' & Hof).
      exists s'. split; [now right | exact Hof].
    + destruct (IH (processed ++ [c])) as (added & -> & Hlen & Hin).
      exists (c :: added). rewrite <- app_assoc. simpl.
      split; [reflexivity|]. split; [lia|].
      intros x [<- | Hx].
      * exists s. split; [now left | exact Hc].
      * destruct (Hin x Hx) as (s' & Hs' & Hof).
        exists s'. split; [now right | exact Hof].
Qed.

Lemma process_loop_grows (segments : list segment) :
  forall processed,
    (length processed <= length (process_loop segments processed))%nat.
Proof.
  induction segments as [|s rest IH]; intro processed; simpl; [lia|].
  specialize (IH (process_one (hd_error rest) processed s)).
  destruct (process_one_cases (hd_error rest) processed s)
    as [E | (c & E & _)]; rewrite E in *; [exact IH|].
  rewrite length_app in IH. simpl in IH. lia.
Qed.

End CueProvenance.

(** X2. [process_subtitle_segments] never invents or duplicates a cue:
    it returns at most as many cues as it was given segments, each cue
    shows the text of one of the segments and starts no earlier than that
    segment; and it never drops everything, a non-empty input gives at
    least one cue. *)
Theorem process_subtitle_segments_provenance (segments : list segment) :
  let cues := Subtitles.process_subtitle_segments segments in
  (length cues <= length segments)%nat /\
  (forall c, In c cues ->
             exists s, In s segments /\
                       seg_text c = seg_text s /\
                       (seg_start s <= seg_start c)%Q) /\
  (segments <> [] -> cues <> []).
Proof.
  cbv zeta. unfold Subtitles.process_subtitle_segments.
  destruct segments as [|s0 rest].
  - split; [simpl; lia|]. split; [intros c [] | intro H; now contradiction H].
  - destruct (process_loop_cases (Subtitles.sorted_by_start (s0 :: rest)) [])
      as (added & E & Hlen & Hin).
    rewrite E. simpl app. rewrite sorted_by_start_length in Hlen.
    split; [|split].
    + exact Hlen.
    + intros c Hc. destruct (Hin c Hc) as (s & Hs & Hof).
      exists s. split; [|exact Hof].
      apply (proj1 (sorted_by_start_in s (s0 :: rest))). exact Hs.
    + intros _ Hnil. subst added.
      pose proof (sorted_by_start_length (s0 :: rest)) as Hl.
      destruct (Subtitles.sorted_by_start (s0 :: rest)) as [|a l] eqn:Es;
        [discriminate|].
      simpl in E.
      destruct (process_one_first (hd_error l) a) as (c & Hc).
      rewrite Hc in E.
      pose proof (process_loop_grows l [c]) as Hg.
      rewrite E in Hg. simpl in Hg. lia.
Qed.

Section CueOrder.

Import Subtitles.

Local Open Scope Q_scope.

(** With positive durations the gap invariant extends from neighbours to
    every pair of cues. *)
Lemma gap_all_pairs (cues : list segment) :
  gap_invariant cues -> positive_durations cues ->
  forall (k i : nat) (a b : segment),
    nth_error cues i = Some a -> nth_error cues (i + S k) = Some b ->
    seg_end a + min_gap <= seg_start b.
Proof.
  intros Hgap Hpos. induction k as [|k IH]; intros i a b Ha Hb.
  - replace (i + 1)%nat with (S i) in Hb by lia. exact (Hgap i a b Ha Hb).
  - destruct (nth_error cues (i + S k)) as [m|] eqn:Hm.
    + specialize (IH i a m Ha Hm).
      assert (Hmb : seg_end m + min_gap <= seg_start b).
      { apply (Hgap (i + S k)%nat m b Hm).
        replace (S (i + S k)) with (i + S (S k))%nat by lia. exact Hb. }
      assert (Hd : 0 < cue_duration m)
        by (apply Hpos; eapply nth_error_In; exact Hm).
      unfold cue_duration, min_gap in *. lra.
    + apply nth_error_None in Hm.
      assert (i + S (S k) < length cues)%nat
        by (apply nth_error_Some; congruence).
      lia.
Qed.

End CueOrder.

(** X3. No two cues returned by [process_subtitle_segments] overlap or
    touch, however far apart they are in the list: a later cue starts at
    least 0.2 s after any earlier cue ends, so the cues are in strictly
    increasing time order. *)
Theorem process_subtitle_segments_no_overlap (segments : list segment)
        (i j : nat) (a b : segment) :
  (i < j)%nat ->
  nth_error (Subtitles.process_subtitle_segments segments) i = Some a ->
  nth_error (Subtitles.process_subtitle_segments segments) j = Some b ->
  (seg_end a + (2 # 10) <= seg_start b)%Q /\
  (seg_start a < seg_start b)%Q.
Proof.
  intros Hij Ha Hb.
  assert (Hgap : Subtitles.gap_invariant
                   (Subtitles.process_subtitle_segments segments)).
  { unfold Subtitles.process_subtitle_segments. destruct segments.
    - apply gap_invariant_nil.
    - apply process_loop_gap, gap_invariant_nil. }
  pose proof (process_subtitle_segments_positive segments) as Hpos.
  assert (H : (seg_end a + Subtitles.min_gap <= seg_start b)%Q).
  { apply (gap_all_pairs _ Hgap Hpos (j - i - 1) i a b Ha).
    replace (i + S (j - i - 1))%nat with j by lia. exact Hb. }
  assert (Hd : (0 < Subtitles.cue_duration a)%Q)
    by (apply Hpos; eapply nth_error_In; exact Ha).
  unfold Subtitles.cue_duration, Subtitles.min_gap in *.
  split; lra.
Qed.

Lemma process_subtitle_segments_no_overlap_witness :
  exists a b,
    nth_error (Subtitles.process_subtitle_segments example_transcript) 0
    = Some a /\
    nth_error (Subtitles.process_subtitle_segments example_transcript) 2
    = Some b /\
    (seg_end a + (2 # 10) <= seg_start b)%Q /\
    (seg_start a < seg_start b)%Q.
Proof.
  eexists _, _. split; [reflexivity|]. split; [reflexivity|].
  apply (process_subtitle_segments_no_overlap example_transcript 0 2);
    [lia | reflexivity | reflexivity].
Defined.

Section WellSpaced.

Import Subtitles.

Lemma well_spaced_sorted (l : list segment) :
  well_spaced l -> sorted_by_start l = l.
Proof.
  induction l as [|a rest IH]; [reflexivity|].
  intros (Hd & Hnext & Hrest). simpl. rewrite (IH Hrest).
  destruct rest as [|b rest']; [reflexivity|]. simpl.
  destruct Hnext as (Horder & _). now rewrite Horder.
Qed.

Lemma process_one_well_spaced (rest processed : list segment) (a : segment) :
  well_spaced (a :: rest) ->
  (forall p, py_last processed = Some p ->
             Qltb (seg_start a) (seg_end p + min_gap) = false) ->
  process_one (hd_error rest) processed a = processed ++ [a].
Proof.
  intros (Hd & Hnext & _) Hprev. destruct a as [st en tx].
  unfold process_one. cbn [seg_start seg_end seg_text] in *.
  rewrite Hd.
  destruct (py_last processed) as [prev|].
  - rewrite (Hprev prev eq_refl).
    destruct rest as [|b rest']; [reflexivity|]. cbn [hd_error].
    destruct Hnext as (_ & _ & Hpull). now rewrite Hpull.
  - destruct rest as [|b rest']; [reflexivity|]. cbn [hd_error].
    destruct Hnext as (_ & _ & Hpull). now rewrite Hpull.
Qed.

Lemma process_loop_well_spaced (l : list segment) :
  forall processed,
    well_spaced l ->
    (forall p a, py_last processed = Some p -> hd_error l = Some a ->
                 Qltb (seg_start a) (seg_end p + min_gap) = false) ->
    process_loop l processed = processed ++ l.
Proof.
  induction l as [|a rest IH]; intros processed Hw Hprev; simpl.
  - now rewrite app_nil_r.
  - rewrite process_one_well_spaced; trivial.
    + rewrite IH.
      * now rewrite <- app_assoc.
      * apply Hw.
      * intros p b Hp Hb. rewrite py_last_snoc in Hp. injection Hp as <-.
        destruct Hw as (_ & Hnext & _).
        destruct rest as [|b' rest']; [discriminate|].
        simpl in Hb. injection Hb as <-. apply Hnext.
    + intros p Hp. now apply (Hprev p a).
Qed.

End WellSpaced.

(** X4. Segments on which none of the function's tests fires come back
    untouched.  If the segments are in non-decreasing start order and,
    computed the way the loop computes them, no segment has
    [end - start < 0.8], none starts before [previous end + 0.2] and none
    ends after [next start - 0.2], then [process_subtitle_segments] returns
    its input list unchanged. *)
Theorem process_subtitle_segments_well_spaced (segments : list segment) :
  well_spaced segments ->
  Subtitles.process_subtitle_segments segments = segments.
Proof.
  intro Hw. unfold Subtitles.process_subtitle_segments.
  destruct segments as [|a rest]; [reflexivity|].
  rewrite (well_spaced_sorted _ Hw).
  rewrite process_loop_well_spaced; trivial.
  intros p b Hp. discriminate.
Qed.

Lemma process_subtitle_segments_well_spaced_witness :
  well_spaced example_transcript /\
  Subtitles.process_subtitle_segments example_transcript = example_transcript.
Proof.
  assert (H : well_spaced example_transcript)
    by (simpl; repeat split; reflexivity).
  split; [exact H|].
  apply (process_subtitle_segments_well_spaced example_transcript H).
Defined.

(** ** Refinement on ordered transcripts *)

Section Widening.

Import Boundaries.

Local Open Scope Q_scope.

Variable key : segment -> Q.

Lemma nondecreasing_head (a : segment) (rest : list segment) :
  nondecreasing key (a :: rest) ->
  forall b, In b rest -> key a <= key b.
Proof.
  revert a. induction rest as [|x rest IH]; intros a H b Hb; [destruct Hb|].
  destruct H as (Hax & Hrest).
  destruct Hb as [<- | Hb]; [exact Hax|].
  apply Qle_trans with (key x); [exact Hax|]. now apply IH.
Qed.

Lemma nondecreasing_pairs (l : list segment) :
  nondecreasing key l ->
  forall i j a b,
    (i <= j)%nat -> nth_error l i = Some a -> nth_error l j = Some b ->
    key a <= key b.
Proof.
  induction l as [|x rest IH]; intros H i j a b Hij Ha Hb.
  - destruct i; discriminate.
  - destruct i as [|i], j as [|j]; simpl in Ha, Hb; try lia.
    + injection Ha as <-. injection Hb as <-. apply Qle_refl.
    + injection Ha as <-. apply (nondecreasing_head x rest H).
      eapply nth_error_In; exact Hb.
    + apply (IH (proj2 H) i j); trivial; lia.
Qed.

End Widening.

Section WideningClips.

Import Boundaries.

Local Open Scope Q_scope.

Variable segments : transcript.

Hypothesis starts_ordered : nondecreasing seg_start segments.
Hypothesis ends_ordered : nondecreasing seg_end segments.

Lemma find_segment_index_contains (t : Q) (i : Z) :
  find_segment_index segments t = Some i ->
  exists s, nth_error segments (Z.to_nat i) = Some s /\ contains_time s t.
Proof.
  intro H. pose proof (find_from_spec segments t 0) as Hs.
  unfold find_segment_index in H. rewrite H in Hs.
  rewrite Z.sub_0_r in Hs. apply Hs.
Qed.

Lemma refined_covers (c c' : clip_info) :
  refined_from segments c c' -> covers_original c'.
Proof.
  intros (si & ei & Hsi & Hei & Hs & He & Hos & Hoe & _).
  exists (start_time c), (end_time c).
  split; [exact Hos|]. split; [exact Hoe|].
  destruct (find_segment_index_contains _ _ Hsi) as (ss & Hss & Hcs & _).
  destruct (find_segment_index_contains _ _ Hei) as (se & Hse & _ & Hce).
  pose proof (find_segment_index_in_range segments _ _ Hsi) as Rs.
  pose proof (find_segment_index_in_range segments _ _ Hei) as Re.
  split.
  - destruct (find_better_start_boundary_spec segments si (start_time c) Rs)
      as (r & Hr & Hcase).
    rewrite Hs in Hr. injection Hr as <-.
    destruct Hcase as [-> | (i & s & Hi & _ & Hnth & -> & _)];
      [apply Qle_refl|].
    apply Qle_trans with (seg_start ss); [|exact Hcs].
    apply (nondecreasing_pairs seg_start segments starts_ordered
                               (Z.to_nat i) (Z.to_nat si)); trivial; lia.
  - destruct (find_better_end_boundary_spec segments ei (end_time c) Re)
      as (r & Hr & Hcase).
    rewrite He in Hr. injection Hr as <-.
    destruct Hcase as [-> | (i & s & Hi & _ & Hnth & -> & _)];
      [apply Qle_refl|].
    apply Qle_trans with (seg_end se); [exact Hce|].
    apply (nondecreasing_pairs seg_end segments ends_ordered
                               (Z.to_nat ei) (Z.to_nat i)); trivial; lia.
Qed.

End WideningClips.

(** X5. On a transcript whose segment starts and segment ends never
    decrease, boundary refinement only widens a clip: every clip returned by
    [validate_and_improve_boundaries] starts no later than the candidate it
    was made from and ends no earlier, so no part of the original clip is
    cut off. *)
Theorem validate_and_improve_boundaries_widens (segments : transcript)
        (ai_analysis improved : list clip_info) :
  nondecreasing seg_start segments ->
  nondecreasing seg_end segments ->
  Boundaries.validate_and_improve_boundaries segments ai_analysis
  = Ok improved ->
  Forall covers_original improved.
Proof.
  intros Hs He Hv.
  destruct (improve_clips_spec segments ai_analysis) as (out & Hout & Hall).
  assert (E : improved = out).
  { unfold Boundaries.validate_and_improve_boundaries in Hv.
    destruct ai_analysis; [simpl in Hout|]; congruence. }
  subst out. clear Hv Hout.
  induction Hall as [|c c' l l' Hc _ IH]; constructor; trivial.
  now apply (refined_covers segments Hs He c c').
Qed.

Lemma validate_and_improve_boundaries_widens_witness :
  Boundaries.validate_and_improve_boundaries
    example_transcript [inner_candidate]
  = Ok [widened_candidate] /\
  Forall covers_original [widened_candidate].
Proof.
  split; [reflexivity|].
  apply (validate_and_improve_boundaries_widens
           example_transcript [inner_candidate] [widened_candidate]).
  - simpl. repeat split; unfold Qle; simpl; lia.
  - simpl. repeat split; unfold Qle; simpl; lia.
  - reflexivity.
Defined.

(** ** Ranges of the scores *)

Section ScoreRanges.

Import Boundaries Quality.

Local Open Scope Q_scope.

(** A subscript from [-len] upward that is below [len] raises nothing. *)
Lemma py_get_total (A : Type) (l : list A) (i : Z) :
  (- Z.of_nat (length l) <= i < Z.of_nat (length l))%Z ->
  exists a, py_get l i = Ok a.
Proof.
  intro Hi. unfold py_get.
  set (pos := if (i <? 0)%Z then (Z.of_nat (length l) + i)%Z else i).
  assert (Hpos : (0 <= pos < Z.of_nat (length l))%Z)
    by (subst pos; destruct (Z.ltb_spec i 0); lia).
  destruct (Z.ltb_spec pos 0) as [H|_]; [lia|].
  destruct (Z.leb_spec (Z.of_nat (length l)) pos) as [H|_]; [lia|].
  simpl. destruct (nth_error l (Z.to_nat pos)) as [a|] eqn:E.
  - now exists a.
  - apply nth_error_None in E. lia.
Qed.

Lemma py_range_length (lo hi : Z) :
  length (py_range lo hi) = Z.to_nat (hi - lo).
Proof. unfold py_range. now rewrite length_map, length_seq. Qed.

Variable segments : transcript.

(** The counter grows by at most one per index. *)
Lemma count_complete_bounds (idxs : list Z) :
  forall acc k,
    count_complete segments idxs acc = Ok k ->
    (acc <= k <= acc + Z.of_nat (length idxs))%Z.
Proof.
  induction idxs as [|i rest IH]; intros acc k H; simpl in H.
  - injection H as <-. simpl. lia.
  - destruct (i <? Z.of_nat (length segments))%Z.
    + destruct (py_get segments i) as [s|e]; [|discriminate].
      cbn [bind] in H. apply IH in H. cbn [length].
      destruct (ends_sentence (strip (seg_text s))); lia.
    + apply IH in H. cbn [length]. lia.
Qed.

Lemma count_complete_total (idxs : list Z) :
  (forall i, In i idxs -> (- Z.of_nat (length segments) <= i)%Z) ->
  forall acc, exists k, count_complete segments idxs acc = Ok k.
Proof.
  induction idxs as [|i rest IH]; intros Hin acc; simpl.
  - now eexists.
  - destruct (Z.ltb_spec i (Z.of_nat (length segments))) as [Hlt|Hge].
    + destruct (py_get_total _ segments i) as (s & ->).
      * split; [apply Hin; now left | exact Hlt].
      * cbn [bind]. apply IH. intros j Hj. apply Hin. now right.
    + apply IH. intros j Hj. apply Hin. now right.
Qed.

Lemma assess_content_completeness_range (start_idx end_idx : Z) (r : Q) :
  assess_content_completeness segments start_idx end_idx = Ok r ->
  0 <= r /\ r <= 10.
Proof.
  unfold assess_content_completeness.
  destruct (Z.leb_spec end_idx start_idx) as [Hle|Hlt].
  - intro H. injection H as <-. split; unfold Qle; simpl; lia.
  - destruct (count_complete segments (py_range start_idx (end_idx + 1)) 0)
      as [k|e] eqn:Hk; [|discriminate].
    cbn [bind]. apply count_complete_bounds in Hk.
    rewrite py_range_length in Hk.
    destruct (Z.ltb_spec 0 (end_idx - start_idx + 1)) as [_|Hn]; [|lia].
    intro H. injection H as <-.
    set (n := (end_idx - start_idx + 1)%Z) in *.
    assert (Hn : 0 < inject_Z n)
      by (change 0 with (inject_Z 0); rewrite <- Zlt_Qlt; lia).
    assert (Hk0 : 0 <= inject_Z k)
      by (change 0 with (inject_Z 0); rewrite <- Zle_Qle; lia).
    assert (Hratio : 0 <= inject_Z k / inject_Z n).
    { apply Qle_shift_div_l; [exact Hn|]. lra. }
    destruct (py_min_spec 10 (inject_Z k / inject_Z n * 10))
      as [[H ->] | [H ->]]; split; lra.
Qed.

Lemma assess_duration_appropriateness_range (cfg : settings) (d : Q) :
  0 <= assess_duration_appropriateness cfg d /\
  assess_duration_appropriateness cfg d <= 10.
Proof.
  unfold assess_duration_appropriateness.
  set (lo := inject_Z (min_clip_duration cfg)).
  set (hi := inject_Z (max_clip_duration cfg)).
  destruct (Qltb d lo) eqn:E1; qcases.
  - destruct (py_max_spec 0 (10 - (lo - d) * 2)) as [[H ->] | [H ->]];
      split; lra.
  - destruct (Qltb hi d) eqn:E2; qcases.
    + destruct (py_max_spec 0 (10 - (d - hi) * (5 # 10)))
        as [[H ->] | [H ->]]; split; lra.
    + destruct (py_abs_spec (d - (lo + hi) / 2)) as [[Ha ->] | [Ha ->]];
        match goal with
        | |- context [py_max 5 ?x] =>
            destruct (py_max_spec 5 x) as [[H ->] | [H ->]]
        end; split; lra.
Qed.

Lemma assess_content_completeness_total (start_idx end_idx : Z) :
  (- Z.of_nat (length segments) <= start_idx)%Z ->
  exists r, assess_content_completeness segments start_idx end_idx = Ok r.
Proof.
  intro Hs. unfold assess_content_completeness.
  destruct (end_idx <=? start_idx)%Z; [now eexists|].
  destruct (count_complete_total (py_range start_idx (end_idx + 1)))
    with (acc := 0%Z) as (k & ->).
  - intros i Hi. apply in_py_range in Hi. lia.
  - cbn [bind]. destruct (0 <? end_idx - start_idx + 1)%Z; now eexists.
Qed.

End ScoreRanges.

(** X6. The content score is always a value between 0 and 10, whatever the
    index pair.  It is computed without an error for every start index from
    [-len(segments)] upward (a negative index wraps around as a Python
    subscript does). *)
Theorem assess_content_completeness_bounded (segments : transcript)
        (start_idx end_idx : Z) :
  (forall r,
      Quality.assess_content_completeness segments start_idx end_idx = Ok r ->
      (0 <= r)%Q /\ (r <= 10)%Q) /\
  ((- Z.of_nat (length segments) <= start_idx)%Z ->
   exists r,
     Quality.assess_content_completeness segments start_idx end_idx = Ok r).
Proof.
  split.
  - intros r H. now apply (assess_content_completeness_range segments
                             start_idx end_idx).
  - now apply assess_content_completeness_total.
Qed.

(** X7. The duration score lies between 0 and 10 for every duration and
    every pair of configured bounds, also bounds given in the wrong order
    and negative durations. *)
Theorem assess_duration_appropriateness_bounded (cfg : settings) (d : Q) :
  (0 <= Quality.assess_duration_appropriateness cfg d)%Q /\
  (Quality.assess_duration_appropriateness cfg d <= 10)%Q.
Proof. apply assess_duration_appropriateness_range. Qed.

(** ** Overall clip quality *)

Section OverallQuality.

Import Boundaries Quality Aggregate.

Local Open Scope Q_scope.

(** Rounding to the nearest integer stays between integer bounds. *)
Lemma round_half_even_bounds (q : Q) (a b : Z) :
  inject_Z a <= q -> q <= inject_Z b ->
  (a <= round_half_even q <= b)%Z.
Proof.
  destruct q as [n d]. unfold Qle, round_half_even.
  cbn [Qnum Qden inject_Z]. rewrite !Z.mul_1_r. intros Ha Hb.
  assert (Hd : (0 < Z.pos d)%Z) by lia.
  assert (Hfa : (a <= n / Z.pos d)%Z)
    by (apply Z.div_le_lower_bound; lia).
  assert (Hfb : (n / Z.pos d <= b)%Z)
    by (apply Z.div_le_upper_bound; lia).
  pose proof (Z.div_mod n (Z.pos d) ltac:(lia)) as Hdm.
  pose proof (Z.mod_pos_bound n (Z.pos d) Hd) as Hr.
  set (f := (n / Z.pos d)%Z) in *. set (r := (n mod Z.pos d)%Z) in *.
  set (D := Z.pos d) in *. clearbody f r D.
  assert (Hup : (0 < r -> f + 1 <= b)%Z).
  { intro Hpos. destruct (Z.eq_dec f b) as [E|E]; [|lia].
    exfalso. subst b. lia. }
  destruct (Z.compare_spec (2 * r) D) as [E|E|E].
  - destruct (Z.even f); lia.
  - lia.
  - lia.
Qed.

Lemma py_round1_bounds (x : Q) (a b : Z) :
  inject_Z a <= x -> x <= inject_Z b ->
  inject_Z a <= py_round1 x /\ py_round1 x <= inject_Z b.
Proof.
  intros Ha Hb. unfold py_round1.
  assert (H : (a * 10 <= round_half_even (x * 10) <= b * 10)%Z).
  { apply round_half_even_bounds; rewrite inject_Z_mult;
      change (inject_Z 10) with 10; lra. }
  destruct H as [H1 H2].
  rewrite Zle_Qle in H1, H2.
  rewrite inject_Z_mult in H1, H2. change (inject_Z 10) with 10 in H1, H2.
  qdiv. change (/ 10) with (1 # 10). split; lra.
Qed.

Variable ui : entry_fields.
Variable segments : transcript.

(** The three scores computed before the entry fields are read. *)
Lemma scores_before_read (clip : clip_info) (si ei : Z) :
  find_segment_index segments (start_time clip) = Some si ->
  find_segment_index segments (end_time clip) = Some ei ->
  exists qs qe c,
    assess_boundary_quality segments si "start" = Ok qs /\
    assess_boundary_quality segments ei "end" = Ok qe /\
    assess_content_completeness segments si ei = Ok c /\
    (5 <= inject_Z (score qs) /\ inject_Z (score qs) <= 10) /\
    (5 <= inject_Z (score qe) /\ inject_Z (score qe) <= 10) /\
    (0 <= c /\ c <= 10) /\ (si = ei -> c = 0).
Proof.
  intros Hs He.
  pose proof (find_segment_index_in_range segments _ _ Hs) as Rs.
  pose proof (find_segment_index_in_range segments _ _ He) as Re.
  destruct (assess_boundary_quality_in_range segments si "start" Rs)
    as (ss & ms & ps & qs & _ & Eqs & Hqs & Hms & Hps).
  destruct (assess_boundary_quality_in_range segments ei "end" Re)
    as (se & me & pe & qe & _ & Eqe & Hqe & Hme & Hpe).
  pose proof (bonus_bounds _ _ _ _ _ Hms Hps) as Bs. rewrite <- Hqs in Bs.
  pose proof (bonus_bounds _ _ _ _ _ Hme Hpe) as Be. rewrite <- Hqe in Be.
  destruct (assess_content_completeness_total segments si ei) as (c & Hc);
    [lia|].
  pose proof (assess_content_completeness_range segments si ei c Hc) as Bc.
  exists qs, qe, c. split; [exact Eqs|]. split; [exact Eqe|].
  split; [exact Hc|].
  split; [change 5 with (inject_Z 5); change 10 with (inject_Z 10);
          rewrite <- !Zle_Qle; lia|].
  split; [change 5 with (inject_Z 5); change 10 with (inject_Z 10);
          rewrite <- !Zle_Qle; lia|].
  split; [exact Bc|].
  intros ->. unfold assess_content_completeness in Hc.
  rewrite Z.leb_refl in Hc. congruence.
Qed.

(** The score of a clip whose two times fall in segments [si] and [ei],
    with both bounds readable. *)
Lemma quality_score_resolved (clip : clip_info) (si ei lo hi : Z) :
  find_segment_index segments (start_time clip) = Some si ->
  find_segment_index segments (end_time clip) = Some ei ->
  min_clip_duration_field ui = Some lo ->
  max_clip_duration_field ui = Some hi ->
  exists q,
    get_clip_quality_score ui (Some segments) clip = Ok q /\
    3 <= q /\ q <= 10 /\ (si = ei -> q <= 7).
Proof.
  intros Hs He Hlo Hhi.
  destruct (scores_before_read clip si ei Hs He)
    as (qs & qe & c & Eqs & Eqe & Ec & Bs & Be & Bc & Hsame).
  unfold get_clip_quality_score, assess_duration_appropriateness_read.
  rewrite Hs, He, Eqs, Eqe, Ec, Hlo, Hhi. cbn [bind py_int]. cbv zeta.
  pose proof (assess_duration_appropriateness_range
                (bounds_only lo hi) (end_time clip - start_time clip)) as Bd.
  set (d := assess_duration_appropriateness
              (bounds_only lo hi) (end_time clip - start_time clip)) in *.
  eexists. split; [reflexivity|].
  set (overall := inject_Z (score qs) * (3 # 10)
                  + inject_Z (score qe) * (3 # 10)
                  + c * (3 # 10) + d * (1 # 10)).
  destruct (py_round1_bounds overall 3 10) as [L U];
    [subst overall; change (inject_Z 3) with 3; lra
    |subst overall; change (inject_Z 10) with 10; lra|].
  change (inject_Z 3) with 3 in L. change (inject_Z 10) with 10 in U.
  split; [exact L|]. split; [exact U|].
  intro Esame. specialize (Hsame Esame).
  destruct (py_round1_bounds overall 3 7) as [_ U7];
    [subst overall; change (inject_Z 3) with 3; lra
    |subst overall c; change (inject_Z 7) with 7; lra|].
  exact U7.
Qed.

(** With a bound that cannot be read, the same clip makes the function
    raise. *)
Lemma quality_score_value_error (clip : clip_info) (si ei : Z) :
  find_segment_index segments (start_time clip) = Some si ->
  find_segment_index segments (end_time clip) = Some ei ->
  min_clip_duration_field ui = None \/ max_clip_duration_field ui = None ->
  get_clip_quality_score ui (Some segments) clip = Raise ValueError.
Proof.
  intros Hs He Hnone.
  destruct (scores_before_read clip si ei Hs He)
    as (qs & qe & c & Eqs & Eqe & Ec & _).
  unfold get_clip_quality_score, assess_duration_appropriateness_read.
  rewrite Hs, He, Eqs, Eqe, Ec. cbn [bind].
  destruct (min_clip_duration_field ui); [|reflexivity].
  destruct Hnone as [H | ->]; [discriminate | reflexivity].
Qed.

End OverallQuality.

(** X8. [get_clip_quality_score] returns 0 when there is no transcript or
    when the clip's start or end falls in no segment, whatever the entry
    fields hold.  For every other clip it reads the minimum and maximum
    duration fields: if one of them holds no integer it raises [ValueError];
    otherwise it returns a value between 3 and 10, the two boundary scores
    alone contributing 3, and at most 7 when the clip starts and ends inside
    the same segment, since its content score is then 0. *)
Theorem get_clip_quality_score_range (ui : entry_fields)
        (self_transcript : option transcript) (clip : clip_info) :
  (self_transcript = None ->
   Aggregate.get_clip_quality_score ui self_transcript clip = Ok 0%Q) /\
  (forall segments,
      self_transcript = Some segments ->
      (resolved segments clip = false ->
       Aggregate.get_clip_quality_score ui self_transcript clip = Ok 0%Q) /\
      (resolved segments clip = true ->
       (min_clip_duration_field ui = None
        \/ max_clip_duration_field ui = None ->
        Aggregate.get_clip_quality_score ui self_transcript clip
        = Raise ValueError) /\
       (forall lo hi,
           min_clip_duration_field ui = Some lo ->
           max_clip_duration_field ui = Some hi ->
           exists q,
             Aggregate.get_clip_quality_score ui self_transcript clip
             = Ok q /\
             (3 <= q)%Q /\ (q <= 10)%Q /\
             (forall i,
                 Boundaries.find_segment_index segments (start_time clip)
                 = Some i ->
                 Boundaries.find_segment_index segments (end_time clip)
                 = Some i ->
                 (q <= 7)%Q)))).
Proof.
  split; [intros ->; reflexivity|].
  intros segments ->. unfold resolved.
  destruct (Boundaries.find_segment_index segments (start_time clip))
    as [si|] eqn:Hs;
    [destruct (Boundaries.find_segment_index segments (end_time clip))
       as [ei|] eqn:He|].
  - split; [discriminate|]. intros _. split.
    + now apply (quality_score_value_error ui segments clip si ei).
    + intros lo hi Hlo Hhi.
      destruct (quality_score_resolved ui segments clip si ei lo hi
                                       Hs He Hlo Hhi)
        as (q & Hq & H3 & H10 & Hsame).
      exists q. split; [exact Hq|]. split; [exact H3|]. split; [exact H10|].
      intros i Hi1 Hi2. apply Hsame. congruence.
  - split; [|discriminate]. intros _.
    unfold Aggregate.get_clip_quality_score. now rewrite Hs, He.
  - split; [|discriminate]. intros _.
    unfold Aggregate.get_clip_quality_score. now rewrite Hs.
Qed.

(** ** The fallback strategies one by one *)

Lemma Forall2_nth_error (A B : Type) (R : A -> B -> Prop)
      (l : list A) (l' : list B) :
  Forall2 R l l' ->
  forall k a b,
    nth_error l k = Some a -> nth_error l' k = Some b -> R a b.
Proof.
  induction 1 as [|x y l l' Hxy _ IH]; intros k a b Ha Hb.
  - destruct k; discriminate.
  - destruct k as [|k]; simpl in Ha, Hb.
    + injection Ha as <-. injection Hb as <-. exact Hxy.
    + exact (IH k a b Ha Hb).
Qed.

Section NaiveSplit.

Import Fallback.

Local Open Scope Q_scope.

Variable total_duration : Q.
Variables max_clips target_duration : Z.

Hypothesis total_positive : 0 < total_duration.
Hypothesis clips_positive : (1 <= max_clips)%Z.
Hypothesis target_positive : (1 <= target_duration)%Z.

Let share : Q := total_duration / inject_Z max_clips.

Lemma share_facts :
  0 < inject_Z max_clips /\ 0 < share /\
  inject_Z max_clips * share == total_duration.
Proof.
  assert (Hm : 0 < inject_Z max_clips)
    by (change 0 with (inject_Z 0); rewrite <- Zlt_Qlt; lia).
  split; [exact Hm|]. split.
  - unfold share. apply Qlt_shift_div_l; [exact Hm|]. lra.
  - unfold share. apply Qmult_div_r. lra.
Qed.

Lemma simple_time_loop_window (idxs : list Z) :
  (forall i, In i idxs -> (0 <= i < max_clips)%Z) ->
  exists clips,
    simple_time_loop total_duration max_clips target_duration idxs
    = Ok clips /\
    Forall2 (fun i c =>
               start_time c = inject_Z i * share /\
               inside_window total_duration c /\
               fallback_marks 5 "low" c)
            idxs clips.
Proof.
  destruct share_facts as (Hm & Hshare & Hprod).
  induction idxs as [|i rest IH]; intro Hin; simpl.
  - exists []. split; [reflexivity | constructor].
  - unfold py_div.
    destruct (Qeq_bool (inject_Z max_clips) 0) eqn:E.
    + apply Qeq_bool_eq in E. lra.
    + cbn [bind]. fold share.
      destruct IH as (clips & -> & Hall);
        [intros j Hj; apply Hin; now right|].
      cbn [bind]. eexists. split; [reflexivity|].
      constructor; [|exact Hall].
      split; [reflexivity|]. split.
      * assert (Hi : (0 <= i < max_clips)%Z) by (apply Hin; now left).
        assert (Hi0 : 0 <= inject_Z i)
          by (change 0 with (inject_Z 0); rewrite <- Zle_Qle; lia).
        assert (Hi1 : inject_Z i + 1 <= inject_Z max_clips).
        { change 1 with (inject_Z 1). rewrite <- inject_Z_plus.
          rewrite <- Zle_Qle. lia. }
        assert (Ht : 1 <= inject_Z target_duration)
          by (change 1 with (inject_Z 1); rewrite <- Zle_Qle; lia).
        assert (Hlo : 0 <= inject_Z i * share)
          by (apply Qmult_le_0_compat; lra).
        assert (Hhi : (inject_Z i + 1) * share <= inject_Z max_clips * share)
          by (apply Qmult_le_compat_r; lra).
        assert (Hexp : (inject_Z i + 1) * share == inject_Z i * share + share)
          by ring.
        unfold inside_window. cbn [start_time end_time].
        destruct (py_min_spec (inject_Z i * share + inject_Z target_duration)
                              total_duration) as [[H ->] | [H ->]];
          repeat split; lra.
      * repeat split.
Qed.

End NaiveSplit.

(** X9. For a positive total duration, at least one requested clip and a
    positive target duration, [create_simple_time_clips] returns exactly
    [max_clips] clips.  Clip number [k] (counting from 0) starts at
    [k * total_duration / max_clips]; every clip starts at or after 0, ends
    after it starts and no later than the total duration, and carries
    emotion score 5, confidence ['low'] and the fallback flag. *)
Theorem create_simple_time_clips_window (total_duration : Q)
        (max_clips target_duration : Z) :
  (0 < total_duration)%Q -> (1 <= max_clips)%Z -> (1 <= target_duration)%Z ->
  exists clips,
    Fallback.create_simple_time_clips total_duration max_clips target_duration
    = Ok clips /\
    length clips = Z.to_nat max_clips /\
    (forall k c,
        nth_error clips k = Some c ->
        start_time c
        = (inject_Z (Z.of_nat k) * (total_duration / inject_Z max_clips))%Q /\
        inside_window total_duration c /\
        fallback_marks 5 "low" c).
Proof.
  intros Ht Hm Hd. unfold Fallback.create_simple_time_clips.
  destruct (simple_time_loop_window total_duration max_clips target_duration
              Ht Hm Hd (py_range 0 max_clips)) as (clips & E & Hall).
  { intros i Hi. apply in_py_range in Hi. lia. }
  exists clips. split; [exact E|].
  assert (Hlen : length clips = Z.to_nat max_clips).
  { rewrite <- (Forall2_length Hall), py_range_length. f_equal. lia. }
  split; [exact Hlen|].
  intros k c Hk.
  assert (Hk' : (k < length clips)%nat) by (apply nth_error_Some; congruence).
  assert (Hidx : nth_error (py_range 0 max_clips) k = Some (Z.of_nat k)).
  { unfold py_range. rewrite nth_error_map, nth_error_seq.
    destruct (Nat.ltb_spec k (Z.to_nat (max_clips - 0))) as [_|Hge];
      [reflexivity | lia]. }
  exact (Forall2_nth_error _ _ _ _ _ Hall k _ _ Hidx Hk).
Qed.

Lemma create_simple_time_clips_window_witness :
  exists clips,
    Fallback.create_simple_time_clips 9 2 60 = Ok clips /\
    length clips = Z.to_nat 2.
Proof.
  destruct (create_simple_time_clips_window 9 2 60)
    as (clips & E & Hlen & _); [reflexivity | lia | lia |].
  exists clips. split; [exact E | exact Hlen].
Defined.

Section NaturalBreaks.

Import Fallback.

Local Open Scope Q_scope.

(** A collected break point sits at a segment that has a successor more
    than one second later. *)
Lemma collect_breaks_spec (segments : list segment) :
  forall (i : Z) (bp : break_point),
    In bp (collect_breaks i segments) ->
    exists k s next,
      nth_error segments k = Some s /\
      nth_error segments (S k) = Some next /\
      bp_segment_idx bp = (i + Z.of_nat k)%Z /\
      bp_time bp = seg_end s /\
      bp_gap bp = seg_start next - seg_end s /\
      1 < seg_start next - seg_end s.
Proof.
  induction segments as [|s rest IH]; intros i bp H; [destruct H|].
  destruct rest as [|nxt rest']; [destruct H|].
  cbn [collect_breaks] in H.
  assert (Hrest : In bp (collect_breaks (i + 1) (nxt :: rest')) ->
                  exists k s0 next,
                    nth_error (s :: nxt :: rest') k = Some s0 /\
                    nth_error (s :: nxt :: rest') (S k) = Some next /\
                    bp_segment_idx bp = (i + Z.of_nat k)%Z /\
                    bp_time bp = seg_end s0 /\
                    bp_gap bp = seg_start next - seg_end s0 /\
                    1 < seg_start next - seg_end s0).
  { intro Hin. destruct (IH _ _ Hin) as (k & s0 & next & H1 & H2 & H3 & H4).
    exists (S k), s0, next. repeat split; try tauto. lia. }
  destruct (Qltb 1 (seg_start nxt - seg_end s)) eqn:Hgap;
    [|now apply Hrest].
  destruct H as [<- | H]; [|now apply Hrest].
  exists 0%nat, s, nxt. cbn. qcases. repeat split; trivial. lia.
Qed.

Variable segments : list segment.
Variable min_duration : Z.

Lemma natural_break_loop_spec (breaks : list break_point) :
  forall i clips,
    natural_break_loop segments min_duration i breaks = Ok clips ->
    Forall (fun c =>
              inject_Z min_duration <= end_time c - start_time c /\
              (exists bp, In bp breaks /\ end_time c = bp_time bp) /\
              fallback_marks 7 "high" c)
           clips /\
    (length clips <= length breaks)%nat.
Proof.
  induction breaks as [|bp rest IH]; intros i clips H; simpl in H.
  - injection H as <-. split; [constructor | simpl; lia].
  - destruct (find_clip_start segments (bp_segment_idx bp) min_duration)
      as [st|e]; [|discriminate].
    cbn [bind] in H.
    destruct (natural_break_loop segments min_duration (i + 1) rest)
      as [cs|e] eqn:Hcs; [|discriminate].
    cbn [bind] in H. destruct (IH _ _ Hcs) as (Hall & Hlen).
    assert (Hall' : Forall (fun c =>
                inject_Z min_duration <= end_time c - start_time c /\
                (exists b, In b (bp :: rest) /\ end_time c = bp_time b) /\
                fallback_marks 7 "high" c) cs).
    { eapply Forall_impl; [|exact Hall].
      intros c (H1 & (b & Hb & Hb') & H3).
      split; [exact H1|]. split; [|exact H3].
      exists b. split; [now right | exact Hb']. }
    destruct (Qleb (inject_Z min_duration) (bp_time bp - st)) eqn:Hd;
      injection H as <-.
    + split; [|simpl; lia]. constructor; [|exact Hall'].
      cbn. qcases. split; [exact Hd|]. split.
      * exists bp. split; [now left | reflexivity].
      * repeat split.
    + split; [exact Hall' | simpl; lia].
Qed.

End NaturalBreaks.

Lemma py_take_length (A : Type) (n : Z) (l : list A) :
  (0 <= n)%Z -> (length (py_take n l) <= Z.to_nat n)%nat.
Proof.
  intro Hn. unfold py_take.
  destruct (Z.ltb_spec n 0) as [H|_]; [lia|].
  apply firstn_le_length.
Qed.

(** X10. [find_natural_break_clips] first reads the minimum and maximum
    duration fields and raises [ValueError] when one of them holds no
    integer.  Otherwise it raises nothing: every clip it returns lasts at
    least the minimum duration, ends exactly at the end of a segment that is
    followed by a pause of more than one second, and carries emotion score 7,
    confidence ['high'] and the fallback flag; for a non-negative
    [max_clips] it returns at most [max_clips] clips. *)
Theorem find_natural_break_clips_sound (ui : entry_fields)
        (segments : list segment) (max_clips : Z) :
  (min_clip_duration_field ui = None \/ max_clip_duration_field ui = None ->
   Fallback.find_natural_break_clips ui segments max_clips
   = Raise ValueError) /\
  (forall lo hi,
      min_clip_duration_field ui = Some lo ->
      max_clip_duration_field ui = Some hi ->
      exists clips,
        Fallback.find_natural_break_clips ui segments max_clips = Ok clips /\
        Forall (fun c =>
                  (inject_Z lo <= end_time c - start_time c)%Q /\
                  ends_at_break segments c /\
                  fallback_marks 7 "high" c)
               clips /\
        ((0 <= max_clips)%Z -> (length clips <= Z.to_nat max_clips)%nat)).
Proof.
  split; [apply find_natural_break_clips_value_error|].
  intros lo hi Hlo Hhi.
  destruct (find_natural_break_clips_total segments ui max_clips lo hi
                                            Hlo Hhi) as (clips & E).
  exists clips. split; [exact E|].
  unfold Fallback.find_natural_break_clips in E. rewrite Hlo, Hhi in E.
  cbn [py_int bind] in E.
  destruct (natural_break_loop_spec segments _ _ _ _ E) as (Hall & Hlen).
  split.
  - eapply Forall_impl; [|exact Hall].
    intros c (Hd & (bp & Hbp & Hend) & Hmarks).
    split; [exact Hd|]. split; [|exact Hmarks].
    apply in_py_take, in_sort_by_gap_desc, collect_breaks_spec in Hbp.
    destruct Hbp as (k & s & next & H1 & H2 & _ & Ht & _ & Hgap).
    exists k, s, next. repeat split; trivial. congruence.
  - intro Hn. pose proof (py_take_length _ max_clips
      (Fallback.sort_by_gap_desc (Fallback.collect_breaks 0 segments)) Hn).
    lia.
Qed.

Section FixedIntervals.

Import Fallback.

Local Open Scope Q_scope.

(** [min(..., key=...)] returns an element with the least key; among
    several, the earliest. *)
Lemma min_by_key_spec (key : segment -> Q) (l : list segment) :
  forall best,
    In (min_by_key key best l) (best :: l) /\
    (forall x, In x (best :: l) -> key (min_by_key key best l) <= key x).
Proof.
  induction l as [|s rest IH]; intro best; simpl.
  - split; [now left|]. intros x [<- | []]. apply Qle_refl.
  - destruct (IH (if Qltb (key s) (key best) then s else best))
      as (Hin & Hmin).
    split.
    + destruct Hin as [E | Hin]; [|right; now right].
      rewrite <- E. destruct (Qltb (key s) (key best));
        [right; now left | now left].
    + intros x Hx.
      assert (Hb : key (if Qltb (key s) (key best) then s else best)
                   <= key best /\
                   key (if Qltb (key s) (key best) then s else best)
                   <= key s).
      { destruct (Qltb (key s) (key best)) eqn:E; qcases; split; lra. }
      destruct Hx as [<- | [<- | Hx]].
      * eapply Qle_trans; [apply Hmin; now left | apply Hb].
      * eapply Qle_trans; [apply Hmin; now left | apply Hb].
      * apply Hmin. now right.
Qed.

Variable segments : list segment.

Lemma adjust_start_nearest (time : Q) :
  segments <> [] ->
  exists s,
    In s segments /\
    adjust_to_segment_boundary segments time "start" = seg_start s /\
    forall x, In x segments ->
              distance (seg_start s) time <= distance (seg_start x) time.
Proof.
  intro Hne. destruct segments as [|first rest]; [contradiction|].
  unfold adjust_to_segment_boundary. simpl.
  destruct (min_by_key_spec (fun s => py_abs (seg_start s - time)) rest first)
    as (Hin & Hmin).
  eexists. split; [exact Hin|]. split; [reflexivity | exact Hmin].
Qed.

Lemma adjust_end_nearest (time : Q) (boundary_type : string) :
  segments <> [] -> String.eqb boundary_type "start" = false ->
  exists s,
    In s segments /\
    adjust_to_segment_boundary segments time boundary_type = seg_end s /\
    forall x, In x segments ->
              distance (seg_end s) time <= distance (seg_end x) time.
Proof.
  intros Hne Hbt. destruct segments as [|first rest]; [contradiction|].
  unfold adjust_to_segment_boundary. rewrite Hbt.
  destruct (min_by_key_spec (fun s => py_abs (seg_end s - time)) rest first)
    as (Hin & Hmin).
  eexists. split; [exact Hin|]. split; [reflexivity | exact Hmin].
Qed.

Lemma fixed_duration_loop_spec (total_duration interval : Q)
      (target_duration : Z) (idxs : list Z) :
  segments <> [] ->
  Forall (fun c =>
            (exists s, In s segments /\ start_time c = seg_start s) /\
            (exists s, In s segments /\ end_time c = seg_end s) /\
            start_time c < end_time c /\
            fallback_marks 6 "medium" c)
         (fixed_duration_loop segments total_duration interval
                              target_duration idxs) /\
  (length (fixed_duration_loop segments total_duration interval
                               target_duration idxs)
   <= length idxs)%nat.
Proof.
  intro Hne. induction idxs as [|i rest (Hall & Hlen)]; simpl.
  - split; [constructor | lia].
  - match goal with
    | |- context [Qltb ?a ?b] => destruct (Qltb a b) eqn:E
    end.
    + split; [|simpl; lia]. constructor; [|exact Hall]. cbn.
      destruct (adjust_start_nearest (inject_Z i * interval) Hne)
        as (s & Hs & Es & _).
      destruct (adjust_end_nearest
                  (py_min (inject_Z i * interval + inject_Z target_duration)
                          total_duration) "end" Hne eq_refl)
        as (s' & Hs' & Es' & _).
      split; [exists s; now split|]. split; [exists s'; now split|].
      split; [now apply Qltb_lt | repeat split].
    + split; [exact Hall | lia].
Qed.

End FixedIntervals.

(** X11. [adjust_to_segment_boundary] snaps a time to the nearest segment
    boundary: on a non-empty transcript the result for ['start'] is the
    start of a segment, and no segment start is nearer to the given time;
    for any other boundary type it is the end of a segment, and no segment
    end is nearer.  On an empty transcript the time is returned as it
    is. *)
Theorem adjust_to_segment_boundary_nearest (segments : list segment)
        (time : Q) (boundary_type : string) :
  (segments = [] ->
   Fallback.adjust_to_segment_boundary segments time boundary_type = time) /\
  (segments <> [] ->
   (boundary_type = "start"%string ->
    exists s,
      In s segments /\
      Fallback.adjust_to_segment_boundary segments time boundary_type
      = seg_start s /\
      forall x, In x segments ->
                (distance (seg_start s) time
                 <= distance (seg_start x) time)%Q) /\
   (boundary_type <> "start"%string ->
    exists s,
      In s segments /\
      Fallback.adjust_to_segment_boundary segments time boundary_type
      = seg_end s /\
      forall x, In x segments ->
                (distance (seg_end s) time <= distance (seg_end x) time)%Q)).
Proof.
  split.
  - intros ->. reflexivity.
  - intro Hne. split.
    + intros ->. now apply adjust_start_nearest.
    + intro Hbt. apply adjust_end_nearest; [exact Hne|].
      now apply String.eqb_neq.
Qed.

(** What a returned list of fixed-interval clips looks like. *)
Lemma find_fixed_duration_clips_spec (segments : list segment)
      (max_clips target_duration : Z) (clips : list clip_info) :
  Fallback.find_fixed_duration_clips segments max_clips target_duration
  = Ok clips ->
  Forall (fun c =>
            (exists s, In s segments /\ start_time c = seg_start s) /\
            (exists s, In s segments /\ end_time c = seg_end s) /\
            (start_time c < end_time c)%Q /\
            fallback_marks 6 "medium" c)
         clips /\
  (length clips <= Z.to_nat max_clips)%nat.
Proof.
  intro H. unfold Fallback.find_fixed_duration_clips in H.
  destruct (Qeq_bool (Fallback.transcript_duration segments) 0) eqn:Hd.
  - injection H as <-. split; [constructor | simpl; lia].
  - assert (Hne : segments <> []).
    { intros ->. discriminate. }
    destruct (Fallback.py_div (Fallback.transcript_duration segments)
                              (inject_Z max_clips)) as [iv|e];
      [|discriminate].
    cbn [bind] in H. injection H as <-.
    destruct (fixed_duration_loop_spec segments
                (Fallback.transcript_duration segments) iv target_duration
                (py_range 0 max_clips) Hne) as (Hall & Hlen).
    split; [exact Hall|]. rewrite py_range_length in Hlen.
    replace (max_clips - 0)%Z with max_clips in Hlen by lia. exact Hlen.
Qed.

(** X12. Whenever [find_fixed_duration_clips] returns, every clip starts at
    the start of some segment, ends at the end of some segment, ends after
    it starts, and carries emotion score 6, confidence ['medium'] and the
    fallback flag; there are at most [max_clips] clips.  It returns the empty
    list for a transcript of zero duration, and on any other transcript it
    raises (a division by zero) exactly when [max_clips] is 0. *)
Theorem find_fixed_duration_clips_sound (segments : list segment)
        (max_clips target_duration : Z) :
  (forall clips,
      Fallback.find_fixed_duration_clips segments max_clips target_duration
      = Ok clips ->
      Forall (fun c =>
                (exists s, In s segments /\ start_time c = seg_start s) /\
                (exists s, In s segments /\ end_time c = seg_end s) /\
                (start_time c < end_time c)%Q /\
                fallback_marks 6 "medium" c)
             clips /\
      (length clips <= Z.to_nat max_clips)%nat) /\
  (Qeq_bool (Fallback.transcript_duration segments) 0 = true ->
   Fallback.find_fixed_duration_clips segments max_clips target_duration
   = Ok []) /\
  (Qeq_bool (Fallback.transcript_duration segments) 0 = false ->
   (max_clips = 0%Z <->
    Fallback.find_fixed_duration_clips segments max_clips target_duration
    = Raise ZeroDivisionError)).
Proof.
  split; [|split].
  - intros clips H.
    exact (find_fixed_duration_clips_spec segments max_clips target_duration
                                          clips H).
  - intro Hd. unfold Fallback.find_fixed_duration_clips. now rewrite Hd.
  - intro Hd.
    destruct (find_fixed_duration_clips_raises segments max_clips
                target_duration Hd) as (Hz & Hnz).
    split; [exact Hz|].
    intro Hr. destruct (Z.eq_dec max_clips 0) as [E|E]; [exact E|].
    destruct (Hnz E) as (clips & Hc). congruence.
Qed.

Section FallbackWhole.

Import Fallback.

Lemma simple_time_loop_marks (total_duration : Q)
      (max_clips target_duration : Z) (idxs : list Z) :
  forall clips,
    simple_time_loop total_duration max_clips target_duration idxs
    = Ok clips ->
    Forall (fallback_marks 5 "low") clips.
Proof.
  induction idxs as [|i rest IH]; intros clips H; simpl in H.
  - injection H as <-. constructor.
  - destruct (py_div total_duration (inject_Z max_clips)) as [sh|e];
      [|discriminate].
    cbn [bind] in H.
    destruct (simple_time_loop total_duration max_clips target_duration rest)
      as [cs|e]; [|discriminate].
    cbn [bind] in H. injection H as <-.
    constructor; [repeat split | now apply IH].
Qed.

Lemma marks_fallback_clip (emotion : Z) (confidence : string)
      (clips : list clip_info) :
  (5 <= emotion <= 7)%Z ->
  Forall (fallback_marks emotion confidence) clips ->
  Forall fallback_clip clips.
Proof.
  intros He H. eapply Forall_impl; [|exact H].
  intros c (E & _ & F & _ & _ & B). unfold fallback_clip.
  rewrite E. repeat split; trivial; lia.
Qed.

End FallbackWhole.

Lemma cascade_tail (naive : list clip_info) (mc : Z)
      (first : result (list clip_info)) (t : Fallback.tier) :
  Forall fallback_clip naive -> length naive = Z.to_nat mc ->
  (forall cs, first = Ok cs ->
              Forall fallback_clip cs /\
              ((0 <= mc)%Z -> (length cs <= Z.to_nat mc)%nat)) ->
  let clips :=
    snd (match first with
         | Ok [] => ([t; Fallback.NaiveSplit], naive)
         | Ok ((_ :: _) as cs) => ([t], cs)
         | Raise _ => ([t], [])
         end) in
  Forall fallback_clip clips /\
  ((0 <= mc)%Z -> (length clips <= Z.to_nat mc)%nat) /\
  ((exists cs, first = Ok cs) -> (1 <= mc)%Z -> clips <> []) /\
  (forall e, first = Raise e -> clips = []).
Proof.
  intros Hnaive Hnlen Hok. cbv zeta.
  destruct first as [[|c cs]|e]; cbn [snd].
  - split; [exact Hnaive|]. split; [intros _; lia|].
    split; [|discriminate].
    intros _ Hm Hnil. subst naive. simpl in Hnlen. lia.
  - destruct (Hok _ eq_refl) as (Hall & Hlen).
    split; [exact Hall|]. split; [exact Hlen|].
    split; [intros _ _; discriminate | discriminate].
  - split; [constructor|]. split; [simpl; lia|].
    split; [|reflexivity]. intros (cs & Hcs). discriminate.
Qed.

(** X13. [generate_fallback_clips] returns the empty list when there is no
    transcript, when the transcript's duration is 0 (an empty transcript
    included), and when an entry field it has to read holds no integer (the
    [ValueError] is caught).  With readable fields, a transcript of non-zero
    duration and a clip count of at least 1 it returns at least one clip.
    It never returns more clips than the clip count, and every clip it
    returns carries the fallback flag, no [boundary_improved] key, and an
    emotion score of 5, 6 or 7. *)
Theorem generate_fallback_clips_guarantees (ui : entry_fields)
        (self_transcript : option transcript) :
  let clips := Fallback.generate_fallback_clips ui self_transcript in
  (self_transcript = None -> clips = []) /\
  (forall segments,
      self_transcript = Some segments ->
      Qeq_bool (Fallback.transcript_duration segments) 0 = true ->
      clips = []) /\
  (~ fields_readable ui -> clips = []) /\
  (forall segments mc,
      self_transcript = Some segments ->
      Qeq_bool (Fallback.transcript_duration segments) 0 = false ->
      fields_readable ui ->
      max_clips_field ui = Some mc -> (1 <= mc)%Z ->
      clips <> []) /\
  Forall fallback_clip clips /\
  (forall mc,
      max_clips_field ui = Some mc -> (0 <= mc)%Z ->
      (length clips <= Z.to_nat mc)%nat).
Proof.
  cbv zeta. unfold Fallback.generate_fallback_clips,
    Fallback.generate_fallback_clips_traced, fields_readable.
  destruct self_transcript as [segments|]; cbn [snd];
    [|split; [reflexivity|]; split; [discriminate|];
      split; [reflexivity|]; split; [discriminate|];
      split; [constructor | intros; simpl; lia]].
  destruct (Qeq_bool (Fallback.transcript_duration segments) 0) eqn:Hd;
    cbn [snd].
  { split; [discriminate|]. split; [reflexivity|]. split; [reflexivity|].
    split; [|split; [constructor | intros; simpl; lia]].
    intros s mc E. injection E as <-. congruence. }
  destruct (max_clips_field ui) as [mc|] eqn:Hmax; cbn [py_int snd];
    [|split; [discriminate|]; split; [(intros s0 E0 H0; injection E0 as <-; first [reflexivity | congruence])|];
      split; [reflexivity|];
      split; [intros s m _ _ _ E; discriminate|];
      split; [constructor | intros; simpl; lia]].
  destruct (smart_duration_field ui) eqn:Hsmart; cbn [negb].
  - (* smart duration on: the natural-break strategy comes first *)
    destruct (create_simple_time_clips_total
                (Fallback.transcript_duration segments) mc 60)
      as (naive & Hnaive & Hnlen).
    assert (Hnmarks : Forall fallback_clip naive).
    { apply (marks_fallback_clip 5 "low"); [lia|].
      pose proof Hnaive as Hloop.
      unfold Fallback.create_simple_time_clips in Hloop.
      exact (simple_time_loop_marks _ _ _ _ _ Hloop). }
    rewrite Hnaive.
    destruct (cascade_tail naive mc
                (Fallback.find_natural_break_clips ui segments mc)
                Fallback.NaturalBreak Hnmarks Hnlen)
      as (Hall & Hlen & Hne & Hraise).
    { intros cs Hcs. unfold Fallback.find_natural_break_clips in Hcs.
      destruct (py_int (min_clip_duration_field ui)) as [lo|e];
        [|discriminate].
      destruct (py_int (max_clip_duration_field ui)) as [hi|e];
        [|discriminate].
      cbn [bind] in Hcs.
      destruct (natural_break_loop_spec _ _ _ _ _ Hcs) as (Hall & Hlen).
      split.
      - apply (marks_fallback_clip 7 "high"); [lia|].
        eapply Forall_impl; [|exact Hall]. intros c H. apply H.
      - intro Hn. pose proof (py_take_length _ mc
          (Fallback.sort_by_gap_desc (Fallback.collect_breaks 0 segments))
          Hn). lia. }
    split; [discriminate|]. split; [(intros s0 E0 H0; injection E0 as <-; first [reflexivity | congruence])|].
    split; [|split; [|split]].
    + intro Hnot.
      apply (Hraise ValueError).
      apply find_natural_break_clips_value_error.
      destruct (min_clip_duration_field ui); [|now left].
      destruct (max_clip_duration_field ui); [|now right].
      exfalso. apply Hnot. repeat split; discriminate.
    + intros s m E _ (_ & Hlo & Hhi) Em Hm.
      injection Em as <-. apply Hne; [|exact Hm].
      destruct (min_clip_duration_field ui) as [lo|] eqn:Elo;
        [|contradiction].
      destruct (max_clip_duration_field ui) as [hi|] eqn:Ehi;
        [|contradiction].
      apply (find_natural_break_clips_total segments ui mc lo hi Elo Ehi).
    + exact Hall.
    + intros m Em. injection Em as <-. exact Hlen.
  - (* smart duration off: the fixed-interval strategy comes first *)
    destruct (clip_duration_field ui) as [cd|] eqn:Hcd; cbn [py_int snd];
      [|split; [discriminate|]; split; [(intros s0 E0 H0; injection E0 as <-; first [reflexivity | congruence])|];
        split; [reflexivity|];
        split; [intros s m _ _ (_ & H) _ _; contradiction|];
        split; [constructor | intros; simpl; lia]].
    destruct (create_simple_time_clips_total
                (Fallback.transcript_duration segments) mc cd)
      as (naive & Hnaive & Hnlen).
    assert (Hnmarks : Forall fallback_clip naive).
    { apply (marks_fallback_clip 5 "low"); [lia|].
      pose proof Hnaive as Hloop.
      unfold Fallback.create_simple_time_clips in Hloop.
      exact (simple_time_loop_marks _ _ _ _ _ Hloop). }
    rewrite Hnaive.
    destruct (cascade_tail naive mc
                (Fallback.find_fixed_duration_clips segments mc cd)
                Fallback.FixedInterval Hnmarks Hnlen)
      as (Hall & Hlen & Hne & Hraise).
    { intros cs Hcs.
      destruct (find_fixed_duration_clips_spec _ _ _ _ Hcs) as (Hall & Hlen).
      split; [|intros _; exact Hlen].
      apply (marks_fallback_clip 6 "medium"); [lia|].
      eapply Forall_impl; [|exact Hall]. intros c H. apply H. }
    split; [discriminate|]. split; [(intros s0 E0 H0; injection E0 as <-; first [reflexivity | congruence])|].
    split; [|split; [|split]].
    + intro Hnot. exfalso. apply Hnot. split; discriminate.
    + intros s m E _ _ Em Hm. injection Em as <-. apply Hne; [|exact Hm].
      apply (find_fixed_duration_clips_raises segments mc cd Hd). lia.
    + exact Hall.
    + intros m Em. injection Em as <-. exact Hlen.
Qed.
